(** * omsFlowPriceUpdate: price and margin reconciliation of cart items

    A shallow embedding of [src/omsFlowPriceUpdate.js], the Lightning web
    component [OmsFlowPriceUpdate].  JavaScript numbers are the kernel's
    binary64 floats, so arithmetic is the arithmetic the component runs;
    the component's fields, the host's timers, the console, the toasts and
    the record writes are threaded through one explicit [state]. *)

From Stdlib Require Import ZArith List String Ascii Bool Lia PeanoNat.
From Stdlib Require Import Floats Uint63.
From Stdlib Require Import QArith Qround Qabs Lqa.
Close Scope Q_scope.
Import ListNotations.

(* ================================================================= *)
(** ** The JavaScript primitives the component relies on *)

Module JS.

(** The primitive values a cart item field arrives with: a currency
    field is a number or absent, a checkbox field a boolean or absent. *)
Inductive value : Type :=
| VUndefined
| VNull
| VBool (b : bool)
| VNumber (n : float).

Inductive typeTag : Type := TUndefined | TObject | TBoolean | TNumber.

(** [typeof v]; [typeof null] is ['object'], [typeof NaN] is ['number']. *)
Definition typeof (v : value) : typeTag :=
  match v with
  | VUndefined => TUndefined
  | VNull => TObject
  | VBool _ => TBoolean
  | VNumber _ => TNumber
  end.

Definition typeTag_eqb (a b : typeTag) : bool :=
  match a, b with
  | TUndefined, TUndefined | TObject, TObject
  | TBoolean, TBoolean | TNumber, TNumber => true
  | _, _ => false
  end.

(** [a === b] on primitives: same type, and for numbers IEEE equality
    (so [+0 === -0] holds and [NaN === NaN] does not). *)
Definition strictEquals (a b : value) : bool :=
  match a, b with
  | VUndefined, VUndefined => true
  | VNull, VNull => true
  | VBool x, VBool y => Bool.eqb x y
  | VNumber x, VNumber y => PrimFloat.eqb x y
  | _, _ => false
  end.

(** [ToNumber], the coercion the arithmetic operators apply. *)
Definition ToNumber (v : value) : float :=
  match v with
  | VUndefined => nan
  | VNull => zero
  | VBool true => one
  | VBool false => zero
  | VNumber n => n
  end.

(** The float nearest to an integer (ties to even); below [2 ^ 63] it
    is the conversion the processor does. *)
Definition ofZ (n : Z) : float :=
  if (Z.abs n <? 2 ^ 63)%Z
  then
    let f := of_uint63 (Uint63.of_Z (Z.abs n)) in
    if (n <? 0)%Z then (- f)%float else f
  else SF2Prim (binary_normalize prec emax n 0 false).

(** The float nearest to [± m * 10 ^ k], for [m >= 0] (ties to even):
    the Number value of a decimal literal. *)
Definition ofDecimal (neg : bool) (m k : Z) : float :=
  match m with
  | Zpos p =>
      if (0 <=? k)%Z
      then SF2Prim (binary_normalize prec emax
                      ((if neg then Z.opp m else m) * 10 ^ k) 0 false)
      else SF2Prim (SFdiv prec emax (S754_finite neg p 0)
                      (S754_finite false (Z.to_pos (10 ^ (- k))) 0))
  | _ => if neg then neg_zero else zero
  end.

Definition isWhiteSpace (c : ascii) : bool :=
  let n := N_of_ascii c in
  ((9 <=? n) && (n <=? 13) || (n =? 32))%N.

Definition digitOf (c : ascii) : option Z :=
  let n := N_of_ascii c in
  if ((48 <=? n) && (n <=? 57))%N then Some (Z.of_N n - 48)%Z else None.

(** A string is held as its UTF-8 bytes.  The white space and line
    terminators beyond ASCII: U+00A0 is two bytes, and U+1680,
    U+2000 to U+200A, U+2028, U+2029, U+202F, U+205F, U+3000 and U+FEFF
    are three. *)
Definition isNoBreakSpace (c1 c2 : ascii) : bool :=
  ((N_of_ascii c1 =? 194) && (N_of_ascii c2 =? 160))%N.

Definition isWideWhiteSpace (c1 c2 c3 : ascii) : bool :=
  let n1 := N_of_ascii c1 in
  let n2 := N_of_ascii c2 in
  let n3 := N_of_ascii c3 in
  ((n1 =? 225) && (n2 =? 154) && (n3 =? 128)
   || (n1 =? 226) && (n2 =? 128)
      && ((128 <=? n3) && (n3 <=? 138)
          || (n3 =? 168) || (n3 =? 169) || (n3 =? 175))
   || (n1 =? 226) && (n2 =? 129) && (n3 =? 159)
   || (n1 =? 227) && (n2 =? 128) && (n3 =? 128)
   || (n1 =? 239) && (n2 =? 187) && (n3 =? 191))%N.

Fixpoint skipWhiteSpace (s : string) : string :=
  match s with
  | String c1 r1 =>
      if isWhiteSpace c1 then skipWhiteSpace r1
      else
        match r1 with
        | String c2 r2 =>
            if isNoBreakSpace c1 c2 then skipWhiteSpace r2
            else
              match r2 with
              | String c3 r3 =>
                  if isWideWhiteSpace c1 c2 c3 then skipWhiteSpace r3 else s
              | EmptyString => s
              end
        | EmptyString => s
        end
  | EmptyString => s
  end.

(** Reads the longest run of decimal digits: the number read so far,
    how many digits it has, and the rest of the string. *)
Fixpoint readDigits (s : string) (acc count : Z) : Z * Z * string :=
  match s with
  | String c r =>
      match digitOf c with
      | Some d => readDigits r (10 * acc + d)%Z (count + 1)%Z
      | None => (acc, count, s)
      end
  | EmptyString => (acc, count, s)
  end.

(** The exponent part [e±ddd] at the head of [s]; [0] when there is
    none or it is not complete (then it is not part of the literal). *)
Definition readExponent (s : string) : Z :=
  match s with
  | String c r =>
      if (Ascii.eqb c "e" || Ascii.eqb c "E")%char then
        let '(neg, r') :=
          match r with
          | String "+"%char t => (false, t)
          | String "-"%char t => (true, t)
          | _ => (false, r)
          end in
        let '(e, count, _) := readDigits r' 0%Z 0%Z in
        if (count =? 0)%Z then 0%Z else if neg then Z.opp e else e
      else 0%Z
  | EmptyString => 0%Z
  end.

(** The longest prefix of [s] that is a [StrUnsignedDecimalLiteral]. *)
Definition readUnsigned (neg : bool) (s : string) : float :=
  if String.prefix "Infinity" s
  then (if neg then neg_infinity else infinity)
  else
    let '(ip, ni, r1) := readDigits s 0%Z 0%Z in
    match r1 with
    | String "."%char r2 =>
        let '(m, n, r3) := readDigits r2 ip ni in
        if (n =? 0)%Z then nan
        else ofDecimal neg m (readExponent r3 - (n - ni))%Z
    | _ =>
        if (ni =? 0)%Z then nan else ofDecimal neg ip (readExponent r1)
    end.

(** The global [parseFloat]: leading white space and line terminators
    are skipped, the longest decimal-literal prefix is read, [NaN] when
    there is none. *)
Definition parseFloat (s : string) : float :=
  match skipWhiteSpace s with
  | String "+"%char r => readUnsigned false r
  | String "-"%char r => readUnsigned true r
  | r => readUnsigned false r
  end.

Module Math.
(** [Math.round]: the nearest integer, ties towards +∞; the sign of
    a zero result is the sign of the argument.  A finite [x] is
    [± m * 2 ^ e]; with [e < 0] the result is the floor of
    [x + 1/2], computed on integers. *)
Definition round (x : float) : float :=
  match Prim2SF x with
  | S754_finite s m e =>
      if (0 <=? e)%Z then x
      else
        let sm := if s then Zneg m else Zpos m in
        let half := Z.shiftl 1 (- e - 1) in
        let n := Z.shiftr (sm + half) (- e) in
        if (n =? 0)%Z then (if s then neg_zero else zero) else ofZ n
  | _ => x
  end.
End Math.

End JS.

Import JS.

(* ================================================================= *)
(** ** The helper module [c/helper] *)

Module Helper.

(** Modelled from the spec: [roundNum] of [c/helper], which the component
    imports and the repository does not contain.  The spec has it as
    "round(x, 2 decimal places)"; this is the usual scaling by a power of
    ten around [Math.round]. *)
Definition roundNum (num : float) (decimals : Z) : float :=
  let scale := ofZ (10 ^ decimals) in
  (Math.round (num * scale) / scale)%float.

End Helper.

(* ================================================================= *)
(** ** Data model *)

(** The related product record of a cart item ([item.Product2]). *)
Record product2 : Type := mkProduct2 {
  Product_Cost__c : value;
  Agency_Pricing__c : value
}.

(** A cart item as [getCartItems] supplies it.  The relationship field
    [Product2] is absent when the item has no product. *)
Record rawItem : Type := mkRawItem {
  rawId : string;
  rawSalesPrice : value;
  rawProduct2 : option product2
}.

(** A cart item as the component holds it: the supplied item spread into
    a fresh object, with [margin] and [readonly] added.  Every assignment
    to [margin] in the component stores a number. *)
Record cartItem : Type := mkCartItem {
  Id : string;
  SalesPrice : value;
  Product2 : product2;
  margin : float;
  readonly : value
}.

(** An array of cart items together with its identity: two arrays with
    the same elements are still two references. *)
Record array : Type := mkArray {
  ref : nat;
  elems : list cartItem
}.

(** An error object of the platform: an optional [body] with an optional
    [message], and an optional [message] of its own. *)
Record errorBody : Type := mkErrorBody { bodyMessage : option string }.

Record jsError : Type := mkError {
  body : option errorBody;
  message : option string
}.

(** What [errorMsg] holds: [undefined] is [None]. *)
Inductive errorInfo : Type :=
| ErrObject (e : jsError)
| ErrText (s : string).

(** The value the wire adapter provisions. *)
Record wireResult : Type := mkWireResult {
  data : option (list rawItem);
  error : option jsError
}.

(** A property value of a record input. *)
Inductive fieldValue : Type :=
| FString (s : string)
| FValue (v : value).

(** The argument of [updateRecord]: an object whose only property,
    [fields], is an object given here by its own properties in order. *)
Record recordInput : Type := mkRecordInput {
  fields : list (string * fieldValue)
}.

(** How the promise of one [updateRecord] call settles, and when. *)
Inductive settlement : Type :=
| Fulfils (at_ : nat)
| Rejects (at_ : nat) (e : jsError)
| Pends.

(** The write collaborator: the settlement of the [i]-th call. *)
Definition writeApi : Type := nat -> recordInput -> settlement.

Inductive allResult : Type :=
| AllFulfilled
| AllRejected (e : jsError)
| AllPending.

(** What [refreshApex] does: it may provision a new value to the wired
    function, and its promise fulfils or rejects. *)
Record refreshOutcome : Type := mkRefreshOutcome {
  provisioned : option wireResult;
  refreshRejected : bool
}.

Record toast : Type := mkToast {
  title : string;
  toastMessage : string;
  variant : string
}.

Inductive field : Type := Price | Margin.

(** The two arrow functions handed to [setTimeout], with the [id] and
    [value] they close over. *)
Inductive callback : Type :=
| PriceTimeout (id value : string)
| MarginTimeout (id value : string).

Record timer : Type := mkTimer {
  handle : positive;
  deadline : nat;
  action : callback
}.

(** The console, as far as it is kept: of the lines the component
    writes, the first line of a timer callback (["Updating ... after
    timeout"]) and its warning (["Item ... not found"]).  The other
    lines (those of the handlers, of [calculateMargin], of the wired
    function and of the save, and the callbacks' ["Updated item"]
    line) are not recorded. *)
Inductive logEntry : Type :=
| LogUpdating (f : field) (id value : string)
| WarnNotFound (id : string).

Inductive completion : Type := Normal | Throws.

(** The component's fields, and the parts of the host it acts on: the
    clock in milliseconds, the pending timers in firing order, the next
    timer handle (handles are positive and never reused), the next array
    identity, the console, the dispatched toasts and the [updateRecord]
    calls made. *)
Record state : Type := mkState {
  cartItems : array;
  errorMsg : option errorInfo;
  wiredCartResult : option wireResult;
  updatePriceTimeout : option positive;
  updateMarginTimeout : option positive;
  clock : nat;
  timers : list timer;
  nextHandle : positive;
  nextRef : nat;
  console : list logEntry;
  toasts : list toast;
  requests : list recordInput
}.

(** A component just constructed: [cartItems = []], nothing else set. *)
Definition initial : state :=
  {| cartItems := mkArray 0 [];
     errorMsg := None;
     wiredCartResult := None;
     updatePriceTimeout := None;
     updateMarginTimeout := None;
     clock := 0;
     timers := [];
     nextHandle := 1%positive;
     nextRef := 1;
     console := [];
     toasts := [];
     requests := [] |}.

Definition fieldOf (c : callback) : field :=
  match c with
  | PriceTimeout _ _ => Price
  | MarginTimeout _ _ => Margin
  end.

Definition field_eqb (a b : field) : bool :=
  match a, b with
  | Price, Price | Margin, Margin => true
  | _, _ => false
  end.

Definition other (f : field) : field :=
  match f with Price => Margin | Margin => Price end.

(** The timer slot of a field: [updatePriceTimeout] or
    [updateMarginTimeout]. *)
Definition slot (f : field) (s : state) : option positive :=
  match f with
  | Price => updatePriceTimeout s
  | Margin => updateMarginTimeout s
  end.

(* ----------------------------------------------------------------- *)
(** *** Field updates *)

Definition withCartItems (a : array) (s : state) : state :=
  mkState a (errorMsg s) (wiredCartResult s) (updatePriceTimeout s)
    (updateMarginTimeout s) (clock s) (timers s) (nextHandle s) (nextRef s)
    (console s) (toasts s) (requests s).

Definition withErrorMsg (e : option errorInfo) (s : state) : state :=
  mkState (cartItems s) e (wiredCartResult s) (updatePriceTimeout s)
    (updateMarginTimeout s) (clock s) (timers s) (nextHandle s) (nextRef s)
    (console s) (toasts s) (requests s).

Definition withWiredCartResult (r : option wireResult) (s : state) : state :=
  mkState (cartItems s) (errorMsg s) r (updatePriceTimeout s)
    (updateMarginTimeout s) (clock s) (timers s) (nextHandle s) (nextRef s)
    (console s) (toasts s) (requests s).

Definition withSlot (f : field) (h : option positive) (s : state) : state :=
  match f with
  | Price =>
      mkState (cartItems s) (errorMsg s) (wiredCartResult s) h
        (updateMarginTimeout s) (clock s) (timers s) (nextHandle s)
        (nextRef s) (console s) (toasts s) (requests s)
  | Margin =>
      mkState (cartItems s) (errorMsg s) (wiredCartResult s)
        (updatePriceTimeout s) h (clock s) (timers s) (nextHandle s)
        (nextRef s) (console s) (toasts s) (requests s)
  end.

Definition withClock (t : nat) (s : state) : state :=
  mkState (cartItems s) (errorMsg s) (wiredCartResult s)
    (updatePriceTimeout s) (updateMarginTimeout s) t (timers s)
    (nextHandle s) (nextRef s) (console s) (toasts s) (requests s).

Definition withTimers (l : list timer) (s : state) : state :=
  mkState (cartItems s) (errorMsg s) (wiredCartResult s)
    (updatePriceTimeout s) (updateMarginTimeout s) (clock s) l
    (nextHandle s) (nextRef s) (console s) (toasts s) (requests s).

Definition withNextHandle (h : positive) (s : state) : state :=
  mkState (cartItems s) (errorMsg s) (wiredCartResult s)
    (updatePriceTimeout s) (updateMarginTimeout s) (clock s) (timers s) h
    (nextRef s) (console s) (toasts s) (requests s).

Definition withNextRef (n : nat) (s : state) : state :=
  mkState (cartItems s) (errorMsg s) (wiredCartResult s)
    (updatePriceTimeout s) (updateMarginTimeout s) (clock s) (timers s)
    (nextHandle s) n (console s) (toasts s) (requests s).

Definition withConsole (l : list logEntry) (s : state) : state :=
  mkState (cartItems s) (errorMsg s) (wiredCartResult s)
    (updatePriceTimeout s) (updateMarginTimeout s) (clock s) (timers s)
    (nextHandle s) (nextRef s) l (toasts s) (requests s).

Definition withToasts (l : list toast) (s : state) : state :=
  mkState (cartItems s) (errorMsg s) (wiredCartResult s)
    (updatePriceTimeout s) (updateMarginTimeout s) (clock s) (timers s)
    (nextHandle s) (nextRef s) (console s) l (requests s).

Definition withRequests (l : list recordInput) (s : state) : state :=
  mkState (cartItems s) (errorMsg s) (wiredCartResult s)
    (updatePriceTimeout s) (updateMarginTimeout s) (clock s) (timers s)
    (nextHandle s) (nextRef s) (console s) (toasts s) l.

(* ----------------------------------------------------------------- *)
(** *** The host: arrays, console, toasts, timers, promises *)

(** [this.cartItems = <a new array of l>]. *)
Definition assignNewArray (l : list cartItem) (s : state) : state :=
  withNextRef (S (nextRef s)) (withCartItems (mkArray (nextRef s) l) s).

Definition consoleWrite (e : logEntry) (s : state) : state :=
  withConsole (console s ++ [e]) s.

Definition dispatchToast (t : toast) (s : state) : state :=
  withToasts (toasts s ++ [t]) s.

(** Timers are kept in firing order: by deadline, and among equal
    deadlines in the order they were set. *)
Fixpoint insertTimer (t : timer) (l : list timer) : list timer :=
  match l with
  | [] => [t]
  | u :: r =>
      if deadline u <=? deadline t then u :: insertTimer t r
      else t :: u :: r
  end.

(** [setTimeout(cb, delay)]: the handle it returns and the new state. *)
Definition setTimeout (cb : callback) (delay : nat) (s : state)
  : positive * state :=
  let h := nextHandle s in
  (h, withNextHandle (Pos.succ h)
        (withTimers (insertTimer (mkTimer h (clock s + delay) cb) (timers s)) s)).

(** [clearTimeout(h)]: a handle that is not pending is ignored. *)
Definition clearTimeout (h : positive) (s : state) : state :=
  withTimers (filter (fun t => negb (Pos.eqb (handle t) h)) (timers s)) s.

(** The earliest rejection among settlements, the first listed among
    those of one instant. *)
Fixpoint firstRejection (l : list settlement) : option (nat * jsError) :=
  match l with
  | [] => None
  | Rejects t e :: r =>
      match firstRejection r with
      | Some (t', e') => if t' <? t then Some (t', e') else Some (t, e)
      | None => Some (t, e)
      end
  | _ :: r => firstRejection r
  end.

Definition isPending (x : settlement) : bool :=
  match x with Pends => true | _ => false end.

(** [Promise.all]: rejected with the reason of the first promise to
    reject, fulfilled once all are, pending otherwise. *)
Definition PromiseAll (l : list settlement) : allResult :=
  match firstRejection l with
  | Some (_, e) => AllRejected e
  | None => if existsb isPending l then AllPending else AllFulfilled
  end.

(** [l.map((x, i) => f i x)]. *)
Fixpoint mapi_from {A B : Type} (i : nat) (f : nat -> A -> B) (l : list A)
  : list B :=
  match l with
  | [] => []
  | x :: r => f i x :: mapi_from (S i) f r
  end.

Definition mapi {A B : Type} (f : nat -> A -> B) (l : list A) : list B :=
  mapi_from 0 f l.

(* ================================================================= *)
(** ** The component [OmsFlowPriceUpdate] *)

Definition successToast (msg : string) : toast :=
  {| title := "Success"; toastMessage := msg; variant := "success" |}.

Definition errorToast (msg : string) : toast :=
  {| title := "Error"; toastMessage := msg; variant := "error" |}.

Definition showSuccessToast (msg : string) (s : state) : state :=
  dispatchToast (successToast msg) s.

Definition showErrorToast (msg : string) (s : state) : state :=
  dispatchToast (errorToast msg) s.

(** [item => item.Id === id]. *)
Definition hasId (id : string) (item : cartItem) : bool :=
  String.eqb (Id item) id.

(** The effect on the array of mutating the item that [find] returns:
    the first one with the id. *)
Fixpoint mutateFound (id : string) (f : cartItem -> cartItem)
  (l : list cartItem) : list cartItem :=
  match l with
  | [] => []
  | x :: r => if hasId id x then f x :: r else x :: mutateFound id f r
  end.

(** The element of [updates] built from one item. *)
Definition updateOf (item : cartItem) : recordInput :=
  {| fields := [("Id"%string, FString (Id item));
                ("SalesPrice"%string, FValue (SalesPrice item))] |}.

(** [error.body ? error.body.message : error.message]. *)
Definition errorDetail (e : jsError) : option errorInfo :=
  match body e with
  | Some b => option_map ErrText (bodyMessage b)
  | None => option_map ErrText (message e)
  end.

(** The quiet period of both debounces, in milliseconds. *)
Definition quietPeriod : nat := 500.

(** What [updatePrice] and [updateMargin] do with their timer slot:
    clear the timeout the slot holds, if it holds one, set a new one and
    keep its handle in the slot. *)
Definition debounce (f : field) (cb : callback) (s : state) : state :=
  let s1 := match slot f s with
            | Some h => clearTimeout h s
            | None => s
            end in
  let '(h, s2) := setTimeout cb quietPeriod s1 in
  withSlot f (Some h) s2.

Definition updatePrice (id value : string) (s : state) : state :=
  debounce Price (PriceTimeout id value) s.

Definition updateMargin (id value : string) (s : state) : state :=
  debounce Margin (MarginTimeout id value) s.

Section Component.

(** The imported helper; [Helper.roundNum] is the instance modelled
    from the spec. *)
Variable roundNum : float -> Z -> float.

Definition calculateMargin (revenue cost : value) : float :=
  if negb (typeTag_eqb (typeof revenue) TNumber)
     || negb (typeTag_eqb (typeof cost) TNumber)
     || strictEquals revenue (VNumber zero)
  then zero
  else roundNum
         (((ToNumber revenue - ToNumber cost) / ToNumber revenue) * 100)%float
         2.

(** The arrow function of [data.map]: [None] is the [TypeError] of
    reading a property of an absent [Product2]. *)
Definition mapItem (item : rawItem) : option cartItem :=
  match rawProduct2 item with
  | Some p =>
      Some {| Id := rawId item;
              SalesPrice := rawSalesPrice item;
              Product2 := p;
              margin := calculateMargin (rawSalesPrice item)
                          (Product_Cost__c p);
              readonly := Agency_Pricing__c p |}
  | None => None
  end.

Fixpoint mapItems (l : list rawItem) : option (list cartItem) :=
  match l with
  | [] => Some []
  | x :: r =>
      match mapItem x with
      | Some y => option_map (cons y) (mapItems r)
      | None => None
      end
  end.

(** The wired function.  An exception leaves what was assigned before
    it in place. *)
Definition wiredCart (result : wireResult) (s : state)
  : completion * state :=
  let s := withWiredCartResult (Some result) s in
  match data result with
  | Some d =>
      match mapItems d with
      | Some items => (Normal, withErrorMsg None (assignNewArray items s))
      | None => (Throws, s)
      end
  | None =>
      match error result with
      | Some e => (Normal, withErrorMsg (Some (ErrObject e)) s)
      | None => (Normal, s)
      end
  end.

(** The body of the price callback on the found item. *)
Definition setPrice (value : string) (item : cartItem) : cartItem :=
  let price := VNumber (parseFloat value) in
  {| Id := Id item;
     SalesPrice := price;
     Product2 := Product2 item;
     margin := calculateMargin price (Product_Cost__c (Product2 item));
     readonly := readonly item |}.

(** [roundNum(cost / (1 - newMargin), 2)] with
    [newMargin = marginPercent / 100], the price that the margin
    callback stores (the spec's price-from-margin function). *)
Definition priceFromMargin (marginPercent : float) (cost : value) : float :=
  let newMargin := (marginPercent / 100)%float in
  roundNum (ToNumber cost / (1 - newMargin))%float 2.

(** The body of the margin callback on the found item. *)
Definition setMargin (value : string) (item : cartItem) : cartItem :=
  {| Id := Id item;
     SalesPrice := VNumber (priceFromMargin (parseFloat value)
                              (Product_Cost__c (Product2 item)));
     Product2 := Product2 item;
     margin := parseFloat value;
     readonly := readonly item |}.

Definition commit (f : field) : string -> cartItem -> cartItem :=
  match f with Price => setPrice | Margin => setMargin end.

(** The body shared by the two timer callbacks. *)
Definition timeoutBody (f : field) (id value : string) (s : state) : state :=
  let s := consoleWrite (LogUpdating f id value) s in
  match find (hasId id) (elems (cartItems s)) with
  | Some _ =>
      assignNewArray
        (mutateFound id (commit f value) (elems (cartItems s))) s
  | None => consoleWrite (WarnNotFound id) s
  end.

Definition runCallback (cb : callback) (s : state) : state :=
  match cb with
  | PriceTimeout id value => timeoutBody Price id value s
  | MarginTimeout id value => timeoutBody Margin id value s
  end.

(** [saveChanges], run until [Promise.all] settles; [updateRecord] is
    the write collaborator. *)
Definition saveChanges (updateRecord : writeApi) (s : state) : state :=
  let updates := map updateOf (elems (cartItems s)) in
  let updatePromises := mapi updateRecord updates in
  let s := withRequests (requests s ++ updates) s in
  match PromiseAll updatePromises with
  | AllFulfilled =>
      let s := showSuccessToast "Changes saved successfully" s in
      assignNewArray (elems (cartItems s)) s
  | AllRejected e =>
      showErrorToast "Error saving changes" (withErrorMsg (errorDetail e) s)
  | AllPending => s
  end.

(** [refreshCartItems]: [refreshApex] re-runs the wire, which may call
    the wired function again, and nothing else. *)
Definition refreshCartItems (o : refreshOutcome) (s : state) : state :=
  let s := match provisioned o with
           | Some r => snd (wiredCart r s)
           | None => s
           end in
  if refreshRejected o
  then showErrorToast "Error refreshing cart items" s
  else s.

(* --------------------------------------------------------------- *)
(** *** The event loop *)

Inductive event : Type :=
| Wire (r : wireResult)
| PriceInput (id value : string)
| MarginInput (id value : string)
| SaveClick (updateRecord : writeApi)
| RefreshClick (o : refreshOutcome)
| Elapse (dt : nat).

Definition due (now : nat) (t : timer) : bool := deadline t <=? now.

(** The callbacks of the timers [l] run, in order. *)
Definition fire (l : list timer) (s : state) : state :=
  fold_left (fun acc t => runCallback (action t) acc) l s.

(** [dt] milliseconds pass: the timers that are due leave the pending
    list and their callbacks run in firing order.  No callback of the
    component sets or clears a timer. *)
Definition elapse (dt : nat) (s : state) : state :=
  let now := clock s + dt in
  fire (filter (due now) (timers s))
    (withTimers (filter (fun t => negb (due now t)) (timers s))
       (withClock now s)).

Definition step (s : state) (e : event) : state :=
  match e with
  | Wire r => snd (wiredCart r s)
  | PriceInput id value => updatePrice id value s
  | MarginInput id value => updateMargin id value s
  | SaveClick api => saveChanges api s
  | RefreshClick o => refreshCartItems o s
  | Elapse dt => elapse dt s
  end.

Definition run (s : state) (es : list event) : state := fold_left step es s.

Definition input (f : field) (id value : string) : event :=
  match f with
  | Price => PriceInput id value
  | Margin => MarginInput id value
  end.

(** A burst of edits of one field: a first edit, then further ones,
    each a number of milliseconds after the one before. *)
Fixpoint burst (f : field) (rest : list (nat * (string * string)))
  : list event :=
  match rest with
  | [] => []
  | (gap, (id, value)) :: r => Elapse gap :: input f id value :: burst f r
  end.

End Component.

(* ----------------------------------------------------------------- *)
(** *** Observations *)

Definition isUpdating (f : field) (e : logEntry) : bool :=
  match e with
  | LogUpdating g _ _ => field_eqb f g
  | WarnNotFound _ => false
  end.

(** The commits of a field that have run, oldest first. *)
Definition commits (f : field) (s : state) : list logEntry :=
  filter (isUpdating f) (console s).

Definition isFor (f : field) (t : timer) : bool :=
  field_eqb f (fieldOf (action t)).

(** The pending timers of a field. *)
Definition pending (f : field) (s : state) : list timer :=
  filter (isFor f) (timers s).

Definition callbackOf (f : field) (id value : string) : callback :=
  match f with
  | Price => PriceTimeout id value
  | Margin => MarginTimeout id value
  end.

(** What holds of every state the component reaches: a pending timer is
    the one its field's slot holds, not the one the other slot holds, and
    no slot holds a handle the host has yet to hand out. *)
Record wellFormed (s : state) : Prop := mkWellFormed {
  wf_slot : forall t, In t (timers s) ->
              slot (fieldOf (action t)) s = Some (handle t);
  wf_other : forall t, In t (timers s) ->
              slot (other (fieldOf (action t))) s <> Some (handle t);
  wf_fresh : forall f h, slot f s = Some h -> (h < nextHandle s)%positive
}.

Arguments wf_slot {s} _ t _.
Arguments wf_other {s} _ t _.
Arguments wf_fresh {s} _ f h _.

(** The console line a callback writes when it starts. *)
Definition entryOf (cb : callback) : logEntry :=
  match cb with
  | PriceTimeout id value => LogUpdating Price id value
  | MarginTimeout id value => LogUpdating Margin id value
  end.

(** The timers left once the slot of [f] has been cleared. *)
Definition afterClear (f : field) (s : state) : list timer :=
  match slot f s with
  | Some h => filter (fun t => negb (Pos.eqb (handle t) h)) (timers s)
  | None => timers s
  end.

(** The last edit of a burst, given the one before the burst. *)
Fixpoint lastEdit (rest : list (nat * (string * string)))
  (first : string * string) : string * string :=
  match rest with
  | [] => first
  | (_, e) :: r => lastEdit r e
  end.

Definition withinQuiet (rest : list (nat * (string * string))) : Prop :=
  Forall (fun g => fst g < quietPeriod) rest.

(** The keys of a record input's [fields]. *)
Definition fieldNames (r : recordInput) : list string := map fst (fields r).

Definition isRejection (x : settlement) : bool :=
  match x with Rejects _ _ => true | _ => false end.

Definition isFulfilment (x : settlement) : bool :=
  match x with Fulfils _ => true | _ => false end.

(** The price and the margin the collection holds for an id. *)
Definition priceOf (id : string) (s : state) : option value :=
  option_map SalesPrice (find (hasId id) (elems (cartItems s))).

Definition marginOf (id : string) (s : state) : option float :=
  option_map margin (find (hasId id) (elems (cartItems s))).

Definition lockOf (id : string) (s : state) : option value :=
  option_map readonly (find (hasId id) (elems (cartItems s))).

(** Array identities are handed out in increasing order, so a new array
    is never the one the component holds. *)
Definition refsFresh (s : state) : Prop := ref (cartItems s) < nextRef s.

(** A whole number of cents as a price: the number [parseFloat] reads
    from its two-decimal notation. *)
Definition cents (k : Z) : float := (ofZ k / 100)%float.

(** A price taken to its margin and back, as the wired function and
    then the margin callback compute them.  The margin goes from the one
    to the other as the number it is: its decimal notation, which is
    what the callback parses, reads back as the same number. *)
Definition roundTrip (roundNum : float -> Z -> float) (p c : float) : float :=
  priceFromMargin roundNum (calculateMargin roundNum (VNumber p) (VNumber c))
    (VNumber c).



(* ----------------------------------------------------------------- *)
(** *** A cart of two items *)

Module Scenario.

(** Item A: price 100, cost 50, agency pricing (read-only). *)
Definition itemA : rawItem :=
  mkRawItem "A" (VNumber 100) (Some (mkProduct2 (VNumber 50) (VBool true))).

(** Item B: price 20, cost 5, not read-only. *)
Definition itemB : rawItem :=
  mkRawItem "B" (VNumber 20) (Some (mkProduct2 (VNumber 5) (VBool false))).

Definition fetched : wireResult := mkWireResult (Some [itemA; itemB]) None.

Definition failure : jsError := mkError None (Some "Cart not found"%string).

Definition failed : wireResult := mkWireResult None (Some failure).

(** The component once the wire has provisioned the two items. *)
Definition loaded : state := run Helper.roundNum initial [Wire fetched].

(** A write collaborator that fulfils every write at once. *)
Definition allFulfil : writeApi := fun _ _ => Fulfils 0.

(** One whose second write rejects first and whose first rejects later. *)
Definition twoReject : writeApi :=
  fun i _ =>
    match i with
    | 0 => Rejects 7 (mkError None (Some "late"%string))
    | _ => Rejects 3 (mkError (Some (mkErrorBody (Some "early"%string))) None)
    end.

End Scenario.

(* ----------------------------------------------------------------- *)
(** *** The two formulas in exact arithmetic *)

(** [calculateMargin] on two numbers and the price of the margin
    callback, with every number a rational and every operation exact:
    what the component computes when binary64 rounds nothing.
    [round2] is [roundNum (x, 2)] as modelled from the spec,
    [Math.round (x * 100) / 100], with [Math.round] the floor of
    [x + 1/2].  A division by zero gives [0] here, where the component
    gets an infinity or [NaN].  *)
Module Exact.

Definition round2 (x : Q) : Q :=
  (inject_Z (Qfloor (x * 100 + (1 # 2))) / 100)%Q.

Definition calculateMargin (revenue cost : Q) : Q :=
  if Qeq_bool revenue 0 then 0%Q
  else round2 (((revenue - cost) / revenue) * 100)%Q.

Definition priceFromMargin (marginPercent cost : Q) : Q :=
  let newMargin := (marginPercent / 100)%Q in
  round2 (cost / (1 - newMargin))%Q.

Definition roundTrip (p c : Q) : Q :=
  priceFromMargin (calculateMargin p c) c.

End Exact.

(* ----------------------------------------------------------------- *)
(** *** Further observations *)

(** An item whose margin is the margin function of its price and its
    cost. *)
Definition inStep (roundNum : float -> Z -> float) (item : cartItem) : Prop :=
  margin item
  = calculateMargin roundNum (SalesPrice item) (Product_Cost__c (Product2 item)).

Definition isMarginInput (e : event) : bool :=
  match e with
  | MarginInput _ _ => true
  | _ => false
  end.

(** The three toasts the component has a call for. *)
Definition knownToast (t : toast) : Prop :=
  t = successToast "Changes saved successfully" \/
  t = errorToast "Error saving changes" \/
  t = errorToast "Error refreshing cart items".

Definition lacksProduct (item : rawItem) : bool :=
  match rawProduct2 item with
  | None => true
  | Some _ => false
  end.

(** The settlements of the writes that [saveChanges] issues. *)
Definition settlements (api : writeApi) (s : state) : list settlement :=
  mapi api (map updateOf (elems (cartItems s))).

(** The state in which the callback of a lone edit runs: that of the
    edit, with the clock advanced and no timer left. *)
Definition atCommit (f : field) (id value : string) (dt : nat) (s : state)
  : state :=
  withTimers []
    (withClock (clock s + dt) (debounce f (callbackOf f id value) s)).

Definition isClick (e : event) : bool :=
  match e with
  | SaveClick _ | RefreshClick _ => true
  | _ => false
  end.

(** How a loaded item relates to the supplied item it was made from. *)
Definition loadedFrom (roundNum : float -> Z -> float)
  (raw : rawItem) (item : cartItem) : Prop :=
  Id item = rawId raw /\
  SalesPrice item = rawSalesPrice raw /\
  rawProduct2 raw = Some (Product2 item) /\
  readonly item = Agency_Pricing__c (Product2 item) /\
  inStep roundNum item.

(** An event that is an edit of the field [f]: a call of the handler
    that sets the timer of [f]. *)
Definition editsField (f : field) (e : event) : bool :=
  match e with
  | PriceInput _ _ => field_eqb f Price
  | MarginInput _ _ => field_eqb f Margin
  | _ => false
  end.

(** No event of [es] is an edit of [f]. *)
Definition noEditOf (f : field) (es : list event) : Prop :=
  Forall (fun e => editsField f e = false) es.

(** The time that passes during an event, and during a list of them. *)
Definition duration (e : event) : nat :=
  match e with
  | Elapse dt => dt
  | _ => 0
  end.

Fixpoint elapsed (es : list event) : nat :=
  match es with
  | [] => 0
  | e :: r => duration e + elapsed r
  end.

(** Edits of [f], each after the events that come between it and the
    edit of [f] before it. *)
Fixpoint interleaved (f : field)
  (segs : list (list event * (string * string))) : list event :=
  match segs with
  | [] => []
  | (between, (id, value)) :: r =>
      between ++ input f id value :: interleaved f r
  end.

(** Between two edits of [f] there is no other edit of [f], and less
    than the quiet period passes. *)
Definition shortGaps (f : field)
  (segs : list (list event * (string * string))) : Prop :=
  Forall (fun seg => noEditOf f (fst seg) /\ elapsed (fst seg) < quietPeriod)
    segs.

(** The last edit of [interleaved f segs], given the one before it. *)
Fixpoint lastOf (segs : list (list event * (string * string)))
  (first : string * string) : string * string :=
  match segs with
  | [] => first
  | (_, e) :: r => lastOf r e
  end.

(** No margin timer is pending. *)
Definition onlyPriceTimers (l : list timer) : Prop :=
  Forall (fun t => fieldOf (action t) = Price) l.

(* ================================================================= *)
(** ** Properties *)

Lemma field_eqb_eq (a b : field) : field_eqb a b = true <-> a = b.
Proof. destruct a, b; simpl; split; congruence. Qed.

Lemma field_eqb_refl (a : field) : field_eqb a a = true.
Proof. destruct a; reflexivity. Qed.

Lemma field_eqb_other_l (a : field) : field_eqb (other a) a = false.
Proof. destruct a; reflexivity. Qed.

Lemma fieldOf_callbackOf (f : field) (id value : string) :
  fieldOf (callbackOf f id value) = f.
Proof. destruct f; reflexivity. Qed.

Lemma entryOf_callbackOf (f : field) (id value : string) :
  entryOf (callbackOf f id value) = LogUpdating f id value.
Proof. destruct f; reflexivity. Qed.

Section TimerFacts.

Variable roundNum : float -> Z -> float.

Local Abbreviation runCallback := (runCallback roundNum).
Local Abbreviation fire := (fire roundNum).
Local Abbreviation elapse := (elapse roundNum).

(** A timer callback touches the collection and the console only. *)
Lemma timeoutBody_frame (f : field) (id value : string) (s : state) :
  let s' := timeoutBody roundNum f id value s in
  timers s' = timers s /\ clock s' = clock s /\
  nextHandle s' = nextHandle s /\
  updatePriceTimeout s' = updatePriceTimeout s /\
  updateMarginTimeout s' = updateMarginTimeout s /\
  toasts s' = toasts s /\ errorMsg s' = errorMsg s /\
  requests s' = requests s.
Proof.
  unfold timeoutBody; simpl.
  destruct (find (hasId id) (elems (cartItems s))); simpl; repeat split.
Qed.

Lemma runCallback_frame (cb : callback) (s : state) :
  let s' := runCallback cb s in
  timers s' = timers s /\ clock s' = clock s /\
  nextHandle s' = nextHandle s /\
  updatePriceTimeout s' = updatePriceTimeout s /\
  updateMarginTimeout s' = updateMarginTimeout s /\
  toasts s' = toasts s /\ errorMsg s' = errorMsg s /\
  requests s' = requests s.
Proof. destruct cb; apply timeoutBody_frame. Qed.

Lemma runCallback_slot (cb : callback) (s : state) (f : field) :
  slot f (runCallback cb s) = slot f s.
Proof.
  destruct (runCallback_frame cb s) as (_ & _ & _ & Hp & Hm & _).
  destruct f; simpl; assumption.
Qed.

(** Whatever the collection holds, a callback stores the committed
    item in place of the one found, in a fresh array. *)
Lemma timeoutBody_elems (f : field) (id value : string) (s : state) :
  elems (cartItems (timeoutBody roundNum f id value s))
  = mutateFound id (commit roundNum f value) (elems (cartItems s)).
Proof.
  unfold timeoutBody; simpl.
  destruct (find (hasId id) (elems (cartItems s))) eqn:Hfind; simpl.
  - reflexivity.
  - induction (elems (cartItems s)) as [|x r IH]; simpl in *.
    + reflexivity.
    + destruct (hasId id x); [discriminate|].
      now rewrite <- IH.
Qed.

Lemma runCallback_commits (f : field) (cb : callback) (s : state) :
  commits f (runCallback cb s)
  = commits f s ++ (if field_eqb f (fieldOf cb) then [entryOf cb] else []).
Proof.
  unfold commits.
  destruct cb as [id value|id value]; simpl; unfold timeoutBody; simpl;
    destruct (find (hasId id) (elems (cartItems s))); simpl;
    repeat rewrite filter_app; simpl;
    destruct f; simpl; try rewrite app_nil_r; reflexivity.
Qed.

Lemma fire_cons (t : timer) (l : list timer) (s : state) :
  fire (t :: l) s = fire l (runCallback (action t) s).
Proof. reflexivity. Qed.

Lemma fire_frame (l : list timer) (s : state) :
  timers (fire l s) = timers s /\ clock (fire l s) = clock s /\
  nextHandle (fire l s) = nextHandle s /\
  (forall f, slot f (fire l s) = slot f s).
Proof.
  revert s; induction l as [|t l IH]; intro s.
  - repeat split.
  - rewrite fire_cons.
    destruct (IH (runCallback (action t) s)) as (Ht & Hc & Hn & Hs).
    destruct (runCallback_frame (action t) s) as (Ht' & Hc' & Hn' & _).
    repeat split; try congruence.
    intro f. rewrite Hs. apply runCallback_slot.
Qed.

Lemma fire_commits (f : field) (l : list timer) (s : state) :
  commits f (fire l s)
  = commits f s ++ map (fun t => entryOf (action t)) (filter (isFor f) l).
Proof.
  revert s; induction l as [|t l IH]; intro s.
  - simpl. now rewrite app_nil_r.
  - rewrite fire_cons, IH, runCallback_commits. simpl. unfold isFor.
    destruct (field_eqb f (fieldOf (action t))); simpl.
    + now rewrite <- app_assoc.
    + now rewrite app_nil_r.
Qed.

Lemma elapse_eq (dt : nat) (s : state) :
  elapse dt s
  = fire (filter (due (clock s + dt)) (timers s))
      (withTimers (filter (fun t => negb (due (clock s + dt) t)) (timers s))
         (withClock (clock s + dt) s)).
Proof. reflexivity. Qed.

Lemma elapse_timers (dt : nat) (s : state) :
  timers (elapse dt s)
  = filter (fun t => negb (due (clock s + dt) t)) (timers s).
Proof.
  rewrite elapse_eq.
  match goal with |- timers (fire ?l ?s0) = _ =>
    destruct (fire_frame l s0) as (-> & _) end.
  reflexivity.
Qed.

Lemma elapse_nextHandle (dt : nat) (s : state) :
  nextHandle (elapse dt s) = nextHandle s.
Proof.
  rewrite elapse_eq.
  match goal with |- nextHandle (fire ?l ?s0) = _ =>
    destruct (fire_frame l s0) as (_ & _ & -> & _) end.
  reflexivity.
Qed.

Lemma elapse_slot (dt : nat) (s : state) (f : field) :
  slot f (elapse dt s) = slot f s.
Proof.
  rewrite elapse_eq.
  match goal with |- slot f (fire ?l ?s0) = _ =>
    destruct (fire_frame l s0) as (_ & _ & _ & ->) end.
  destruct f; reflexivity.
Qed.

Lemma filter_comm {A : Type} (p q : A -> bool) (l : list A) :
  filter p (filter q l) = filter q (filter p l).
Proof.
  induction l as [|x l IH]; simpl; [reflexivity|].
  destruct (p x) eqn:Hp, (q x) eqn:Hq; simpl;
    rewrite ?Hp, ?Hq, IH; reflexivity.
Qed.

Lemma elapse_pending (f : field) (dt : nat) (s : state) :
  pending f (elapse dt s)
  = filter (fun t => negb (due (clock s + dt) t)) (pending f s).
Proof. unfold pending. rewrite elapse_timers. apply filter_comm. Qed.

Lemma elapse_commits (f : field) (dt : nat) (s : state) :
  commits f (elapse dt s)
  = commits f s
    ++ map (fun t => entryOf (action t))
         (filter (due (clock s + dt)) (pending f s)).
Proof.
  rewrite elapse_eq, fire_commits. unfold pending.
  now rewrite (filter_comm (isFor f)).
Qed.

End TimerFacts.


(* ----------------------------------------------------------------- *)
(** *** Setting and clearing timers *)

Lemma in_insertTimer (t u : timer) (l : list timer) :
  In u (insertTimer t l) <-> u = t \/ In u l.
Proof.
  induction l as [|x l IH]; simpl.
  - intuition.
  - destruct (deadline x <=? deadline t); simpl; rewrite ?IH; intuition.
Qed.

Lemma filter_insertTimer_out (p : timer -> bool) (t : timer) (l : list timer) :
  p t = false -> filter p (insertTimer t l) = filter p l.
Proof.
  intro Hp. induction l as [|x l IH]; simpl.
  - now rewrite Hp.
  - destruct (deadline x <=? deadline t); simpl.
    + now rewrite IH.
    + now rewrite Hp.
Qed.

Lemma filter_insertTimer_only (p : timer -> bool) (t : timer) (l : list timer) :
  p t = true -> filter p l = [] -> filter p (insertTimer t l) = [t].
Proof.
  intros Hp. induction l as [|x l IH]; simpl; intro Hl.
  - now rewrite Hp.
  - destruct (p x) eqn:Hx; [discriminate|].
    destruct (deadline x <=? deadline t); simpl.
    + rewrite Hx. now apply IH.
    + now rewrite Hp, Hx, Hl.
Qed.

Lemma filter_none {A : Type} (p : A -> bool) (l : list A) :
  (forall x, In x l -> p x = false) -> filter p l = [].
Proof.
  induction l as [|x l IH]; simpl; intro H; [reflexivity|].
  rewrite (H x (or_introl eq_refl)). apply IH. intros y Hy. apply H. now right.
Qed.

Lemma filter_all {A : Type} (p : A -> bool) (l : list A) :
  (forall x, In x l -> p x = true) -> filter p l = l.
Proof.
  induction l as [|x l IH]; simpl; intro H; [reflexivity|].
  rewrite (H x (or_introl eq_refl)). f_equal. apply IH.
  intros y Hy. apply H. now right.
Qed.

Lemma debounce_timers (f : field) (cb : callback) (s : state) :
  timers (debounce f cb s)
  = insertTimer (mkTimer (nextHandle s) (clock s + quietPeriod) cb)
      (afterClear f s).
Proof.
  unfold debounce, afterClear, setTimeout, clearTimeout.
  destruct f; simpl;
    [destruct (updatePriceTimeout s)|destruct (updateMarginTimeout s)];
    reflexivity.
Qed.

Lemma debounce_frame (f : field) (cb : callback) (s : state) :
  let s' := debounce f cb s in
  clock s' = clock s /\ nextHandle s' = Pos.succ (nextHandle s) /\
  slot f s' = Some (nextHandle s) /\ slot (other f) s' = slot (other f) s /\
  console s' = console s /\ cartItems s' = cartItems s /\
  toasts s' = toasts s /\ errorMsg s' = errorMsg s /\
  requests s' = requests s /\ nextRef s' = nextRef s.
Proof.
  unfold debounce, setTimeout, clearTimeout.
  destruct f; simpl;
    [destruct (updatePriceTimeout s)|destruct (updateMarginTimeout s)];
    simpl; repeat split.
Qed.

Lemma in_afterClear (f : field) (s : state) (t : timer) :
  In t (afterClear f s) ->
  In t (timers s) /\ slot f s <> Some (handle t).
Proof.
  unfold afterClear. destruct (slot f s) as [h|].
  - rewrite filter_In. intros [Hin Hneq]. split; [assumption|].
    intro Heq. injection Heq as ->. now rewrite Pos.eqb_refl in Hneq.
  - intro Hin. split; [assumption|discriminate].
Qed.

Lemma field_cases (f g : field) : g = f \/ g = other f.
Proof. destruct f, g; auto. Qed.

Lemma other_involutive (f : field) : other (other f) = f.
Proof. destruct f; reflexivity. Qed.

(** Once the slot of [f] is cleared, no timer of [f] is left. *)
Lemma afterClear_none (f : field) (s : state) :
  wellFormed s -> filter (isFor f) (afterClear f s) = [].
Proof.
  intro Hwf. apply filter_none. intros t Hin.
  apply in_afterClear in Hin as [Hin Hneq]. unfold isFor.
  destruct (field_eqb f (fieldOf (action t))) eqn:Hf; [|reflexivity].
  apply field_eqb_eq in Hf. subst f.
  now apply (wf_slot Hwf) in Hin.
Qed.

(** Clearing the slot of [f] clears no timer of the other field. *)
Lemma afterClear_other (f : field) (s : state) :
  wellFormed s ->
  filter (isFor (other f)) (afterClear f s) = filter (isFor (other f)) (timers s).
Proof.
  intro Hwf. unfold afterClear. destruct (slot f s) as [h|] eqn:Hslot;
    [|reflexivity].
  rewrite filter_comm.
  apply filter_all. intros t Hin. apply filter_In in Hin as [Hin Hf].
  unfold isFor in Hf. apply field_eqb_eq in Hf.
  destruct (Pos.eqb (handle t) h) eqn:Hh; [|reflexivity].
  apply Pos.eqb_eq in Hh. subst h.
  exfalso. apply (wf_other Hwf t Hin).
  now rewrite <- Hf, other_involutive.
Qed.

Lemma debounce_pending (f : field) (cb : callback) (s : state) :
  wellFormed s -> fieldOf cb = f ->
  pending f (debounce f cb s)
  = [mkTimer (nextHandle s) (clock s + quietPeriod) cb].
Proof.
  intros Hwf Hcb. unfold pending. rewrite debounce_timers.
  apply filter_insertTimer_only.
  - unfold isFor; simpl. rewrite Hcb. apply field_eqb_refl.
  - now apply afterClear_none.
Qed.

Lemma debounce_pending_other (f : field) (cb : callback) (s : state) :
  wellFormed s -> fieldOf cb = f ->
  pending (other f) (debounce f cb s) = pending (other f) s.
Proof.
  intros Hwf Hcb. unfold pending. rewrite debounce_timers.
  rewrite filter_insertTimer_out.
  - now apply afterClear_other.
  - unfold isFor; simpl. rewrite Hcb. apply field_eqb_other_l.
Qed.

Lemma debounce_commits (f g : field) (cb : callback) (s : state) :
  commits g (debounce f cb s) = commits g s.
Proof.
  unfold commits.
  destruct (debounce_frame f cb s) as (_ & _ & _ & _ & -> & _). reflexivity.
Qed.

(* ----------------------------------------------------------------- *)
(** *** Well-formedness is kept by every step *)

Lemma wellFormed_initial : wellFormed initial.
Proof.
  constructor; simpl.
  - intros t [].
  - intros t [].
  - intros [] h; discriminate.
Qed.

Lemma wellFormed_ext (s s' : state) :
  (forall t, In t (timers s') -> In t (timers s)) ->
  (forall f, slot f s' = slot f s) ->
  nextHandle s' = nextHandle s ->
  wellFormed s -> wellFormed s'.
Proof.
  intros Ht Hs Hn Hwf. constructor.
  - intros t Hin. rewrite Hs. apply (wf_slot Hwf), Ht, Hin.
  - intros t Hin. rewrite Hs. apply (wf_other Hwf), Ht, Hin.
  - intros f h Hf. rewrite Hn. apply (wf_fresh Hwf f). now rewrite <- Hs.
Qed.

Lemma wellFormed_debounce (f : field) (cb : callback) (s : state) :
  fieldOf cb = f -> wellFormed s -> wellFormed (debounce f cb s).
Proof.
  intros Hcb Hwf.
  destruct (debounce_frame f cb s)
    as (_ & Hnext & Hslot & Hother & _).
  assert (Hlt : forall g h, slot g s = Some h ->
                  (h < nextHandle s)%positive) by apply (wf_fresh Hwf).
  assert (Hold : forall t, In t (afterClear f s) ->
            fieldOf (action t) = other f /\
            slot (other f) s = Some (handle t)).
  { intros t Hin. apply in_afterClear in Hin as [Hin Hneq].
    pose proof (wf_slot Hwf t Hin) as Hs.
    destruct (field_cases f (fieldOf (action t))) as [E|E];
      rewrite E in Hs; [contradiction|]. now split. }
  constructor.
  - intros t Hin. rewrite debounce_timers in Hin.
    apply in_insertTimer in Hin as [->|Hin]; simpl.
    + now rewrite Hcb.
    + destruct (Hold t Hin) as [-> Hs]. now rewrite Hother.
  - intros t Hin. rewrite debounce_timers in Hin.
    apply in_insertTimer in Hin as [->|Hin]; simpl.
    + rewrite Hcb, Hother. intro E. apply Hlt in E. lia.
    + destruct (Hold t Hin) as [-> Hs].
      rewrite other_involutive, Hslot. intro E. injection E as E.
      apply Hlt in Hs. lia.
  - intros g h Hg. rewrite Hnext.
    destruct (field_cases f g) as [->| ->].
    + rewrite Hslot in Hg. injection Hg as <-. lia.
    + rewrite Hother in Hg. apply Hlt in Hg. lia.
Qed.

Section Steps.

Variable roundNum : float -> Z -> float.


(** The wired function sets and clears no timer. *)
Lemma wiredCart_frame (r : wireResult) (s : state) :
  let s' := snd (wiredCart roundNum r s) in
  timers s' = timers s /\ clock s' = clock s /\
  nextHandle s' = nextHandle s /\
  updatePriceTimeout s' = updatePriceTimeout s /\
  updateMarginTimeout s' = updateMarginTimeout s /\
  console s' = console s /\ toasts s' = toasts s.
Proof.
  unfold wiredCart.
  destruct (data r) as [d|]; [destruct (mapItems roundNum d)|destruct (error r)];
    simpl; repeat split.
Qed.

Lemma saveChanges_frame (api : writeApi) (s : state) :
  let s' := saveChanges api s in
  timers s' = timers s /\ clock s' = clock s /\
  nextHandle s' = nextHandle s /\
  updatePriceTimeout s' = updatePriceTimeout s /\
  updateMarginTimeout s' = updateMarginTimeout s /\
  console s' = console s.
Proof.
  unfold saveChanges.
  destruct (PromiseAll _); simpl; repeat split.
Qed.

Lemma refreshCartItems_frame (o : refreshOutcome) (s : state) :
  let s' := refreshCartItems roundNum o s in
  timers s' = timers s /\ clock s' = clock s /\
  nextHandle s' = nextHandle s /\
  updatePriceTimeout s' = updatePriceTimeout s /\
  updateMarginTimeout s' = updateMarginTimeout s /\
  console s' = console s.
Proof.
  unfold refreshCartItems.
  destruct (provisioned o) as [r|].
  - destruct (wiredCart_frame r s) as (Ht & Hc & Hn & Hp & Hm & Hl & _).
    destruct (refreshRejected o); simpl; repeat split; assumption.
  - destruct (refreshRejected o); simpl; repeat split.
Qed.

Lemma slot_ext (s s' : state) :
  updatePriceTimeout s' = updatePriceTimeout s ->
  updateMarginTimeout s' = updateMarginTimeout s ->
  forall f, slot f s' = slot f s.
Proof. intros Hp Hm []; assumption. Qed.

Lemma wellFormed_elapse (dt : nat) (s : state) :
  wellFormed s -> wellFormed (elapse roundNum dt s).
Proof.
  apply wellFormed_ext.
  - intros t. rewrite elapse_timers, filter_In. tauto.
  - apply elapse_slot.
  - apply elapse_nextHandle.
Qed.

Lemma wellFormed_step (s : state) (e : event) :
  wellFormed s -> wellFormed (step roundNum s e).
Proof.
  destruct e as [r|id v|id v|api|o|dt]; simpl.
  - destruct (wiredCart_frame r s) as (Ht & _ & Hn & Hp & Hm & _).
    apply wellFormed_ext; [now rewrite Ht|now apply slot_ext|assumption].
  - now apply wellFormed_debounce.
  - now apply wellFormed_debounce.
  - destruct (saveChanges_frame api s) as (Ht & _ & Hn & Hp & Hm & _).
    apply wellFormed_ext; [now rewrite Ht|now apply slot_ext|assumption].
  - destruct (refreshCartItems_frame o s) as (Ht & _ & Hn & Hp & Hm & _).
    apply wellFormed_ext; [now rewrite Ht|now apply slot_ext|assumption].
  - apply wellFormed_elapse.
Qed.

Lemma wellFormed_run (es : list event) (s : state) :
  wellFormed s -> wellFormed (run roundNum s es).
Proof.
  revert s; induction es as [|e es IH]; intros s Hwf; simpl.
  - assumption.
  - apply IH, wellFormed_step, Hwf.
Qed.

Lemma step_input (f : field) (id value : string) (s : state) :
  step roundNum s (input f id value) = debounce f (callbackOf f id value) s.
Proof. destruct f; reflexivity. Qed.

(* --------------------------------------------------------------- *)
(** *** One pending timer through a burst *)

(** A timer that is not yet due stays pending when time passes, and
    nothing of its field is committed. *)
Lemma elapse_before (f : field) (t : timer) (dt : nat) (s : state) :
  pending f s = [t] -> clock s + dt < deadline t ->
  pending f (elapse roundNum dt s) = [t] /\ commits f (elapse roundNum dt s) = commits f s.
Proof.
  intros Hp Hlt.
  assert (Hdue : due (clock s + dt) t = false).
  { unfold due. apply Nat.leb_gt. assumption. }
  split.
  - rewrite elapse_pending, Hp. simpl. now rewrite Hdue.
  - rewrite elapse_commits, Hp. simpl. rewrite Hdue. apply app_nil_r.
Qed.

(** A timer that is due fires, once. *)
Lemma elapse_after (f : field) (t : timer) (dt : nat) (s : state) :
  pending f s = [t] -> deadline t <= clock s + dt ->
  pending f (elapse roundNum dt s) = [] /\
  commits f (elapse roundNum dt s) = commits f s ++ [entryOf (action t)].
Proof.
  intros Hp Hle.
  assert (Hdue : due (clock s + dt) t = true).
  { unfold due. apply Nat.leb_le. assumption. }
  split.
  - rewrite elapse_pending, Hp. simpl. now rewrite Hdue.
  - rewrite elapse_commits, Hp. simpl. now rewrite Hdue.
Qed.

(** When the only pending timers are those of [f], the collection after
    [dt] milliseconds is the one the due callbacks of [f] leave. *)
Lemma timers_pending (f : field) (s : state) :
  pending (other f) s = [] -> timers s = pending f s.
Proof.
  unfold pending. intro Ho. symmetry. apply filter_all. intros t Hin.
  unfold isFor.
  destruct (field_cases f (fieldOf (action t))) as [->| E].
  - apply field_eqb_refl.
  - assert (Hin' : In t (filter (isFor (other f)) (timers s))).
    { apply filter_In. split; [assumption|]. unfold isFor.
      rewrite E. apply field_eqb_refl. }
    rewrite Ho in Hin'. destruct Hin'.
Qed.

Lemma elapse_before_elems (f : field) (t : timer) (dt : nat) (s : state) :
  pending f s = [t] -> pending (other f) s = [] ->
  clock s + dt < deadline t ->
  cartItems (elapse roundNum dt s) = cartItems s /\ pending (other f) (elapse roundNum dt s) = [].
Proof.
  intros Hp Ho Hlt.
  assert (Hdue : due (clock s + dt) t = false).
  { unfold due. apply Nat.leb_gt. assumption. }
  split.
  - rewrite elapse_eq, (timers_pending f s Ho), Hp. simpl. rewrite Hdue.
    reflexivity.
  - rewrite elapse_pending, Ho. reflexivity.
Qed.

Lemma elapse_after_elems (f : field) (id value : string) (t : timer)
  (dt : nat) (s : state) :
  pending f s = [t] -> pending (other f) s = [] ->
  action t = callbackOf f id value ->
  deadline t <= clock s + dt ->
  elems (cartItems (elapse roundNum dt s))
  = mutateFound id (commit roundNum f value) (elems (cartItems s)).
Proof.
  intros Hp Ho Ha Hle.
  assert (Hdue : due (clock s + dt) t = true).
  { unfold due. apply Nat.leb_le. assumption. }
  rewrite elapse_eq, (timers_pending f s Ho), Hp. simpl. rewrite Hdue.
  simpl. rewrite Ha. destruct f; simpl; rewrite timeoutBody_elems; reflexivity.
Qed.

(** After an edit of [f], further edits of [f] that each come within
    the quiet period of the one before, and then a quiet period: the
    last edit is committed and nothing else of [f] is. *)
Lemma burst_settles (f : field) (rest : list (nat * (string * string))) :
  forall (s : state) (id value : string) (t : timer) (dt : nat),
    wellFormed s ->
    pending f s = [t] ->
    deadline t = clock s + quietPeriod ->
    action t = callbackOf f id value ->
    withinQuiet rest ->
    quietPeriod <= dt ->
    let s' := run roundNum s (burst f rest ++ [Elapse dt]) in
    commits f s'
    = commits f s
      ++ [LogUpdating f (fst (lastEdit rest (id, value)))
            (snd (lastEdit rest (id, value)))] /\
    pending f s' = [] /\
    (pending (other f) s = [] ->
     elems (cartItems s')
     = mutateFound (fst (lastEdit rest (id, value)))
         (commit roundNum f (snd (lastEdit rest (id, value))))
         (elems (cartItems s))).
Proof.
  induction rest as [|[gap [id' value']] rest IH];
    intros s id value t dt Hwf Hp Hd Ha Hq Hdt; simpl.
  - destruct (elapse_after f t dt s Hp) as [Hp' Hc]; [lia|].
    rewrite Ha, entryOf_callbackOf in Hc.
    repeat split; try assumption.
    intro Ho. apply (elapse_after_elems f id value t dt s); try assumption. lia.
  - inversion Hq as [|x l Hgap Hq' E]; subst. simpl in Hgap.
    destruct (elapse_before f t gap s Hp) as [Hp1 Hc1]; [lia|].
    set (s1 := elapse roundNum gap s) in *.
    assert (Hwf1 : wellFormed s1) by now apply wellFormed_elapse.
    rewrite step_input.
    set (s2 := debounce f (callbackOf f id' value') s1).
    assert (Hwf2 : wellFormed s2)
      by (apply wellFormed_debounce; [apply fieldOf_callbackOf|assumption]).
    destruct (debounce_frame f (callbackOf f id' value') s1)
      as (Hclk & _ & _ & _ & _ & Hitems & _).
    fold s2 in Hclk, Hitems.
    specialize (IH s2 id' value'
                  (mkTimer (nextHandle s1) (clock s1 + quietPeriod)
                     (callbackOf f id' value')) dt Hwf2).
    destruct IH as (Hc & Hp' & He); try assumption.
    + apply debounce_pending; [assumption|apply fieldOf_callbackOf].
    + simpl. now rewrite Hclk.
    + reflexivity.
    + repeat split.
      * rewrite Hc. unfold s2. now rewrite debounce_commits, Hc1.
      * assumption.
      * intro Ho.
        destruct (elapse_before_elems f t gap s Hp Ho) as [Hi1 Ho1]; [lia|].
        fold s1 in Hi1, Ho1.
        rewrite He.
        -- now rewrite Hitems, Hi1.
        -- unfold s2. rewrite debounce_pending_other;
             [assumption|assumption|apply fieldOf_callbackOf].
Qed.

End Steps.

(* ================================================================= *)
(** ** The margin function *)

(** C4, the failing input: a [NaN] price, and a [NaN] cost, are of type
    number and pass the guard of [calculateMargin], whose warning says
    it returns 0 on invalid input; the margin is the rounded quotient,
    [NaN], and not 0.  The component hands it that price itself: when
    the price input of item A is emptied, the callback parses [NaN],
    and the margin the collection then holds is [NaN]. *)
Theorem calculateMargin_of_NaN :
  is_nan (calculateMargin Helper.roundNum (VNumber nan) (VNumber 50)) = true /\
  is_nan (calculateMargin Helper.roundNum (VNumber 100) (VNumber nan)) = true /\
  PrimFloat.eqb (calculateMargin Helper.roundNum (VNumber nan) (VNumber 50))
    zero = false /\
  PrimFloat.eqb (calculateMargin Helper.roundNum (VNumber 100) (VNumber nan))
    zero = false /\
  parseFloat EmptyString = nan /\
  marginOf "A"
    (run Helper.roundNum Scenario.loaded
       [PriceInput "A" EmptyString; Elapse 500])
  = Some nan.
Proof. vm_compute. repeat split. Qed.

(** [NaN] absorbs the arithmetic of the margin. *)
Lemma nan_sub_l (y : float) : (nan - y)%float = nan.
Proof. apply Prim2SF_inj. rewrite FloatAxioms.sub_spec. reflexivity. Qed.

Lemma nan_sub_r (x : float) : (x - nan)%float = nan.
Proof.
  apply Prim2SF_inj. rewrite FloatAxioms.sub_spec.
  change (Prim2SF nan) with S754_nan.
  destruct (Prim2SF x); reflexivity.
Qed.

Lemma nan_div_l (y : float) : (nan / y)%float = nan.
Proof. apply Prim2SF_inj. rewrite FloatAxioms.div_spec. reflexivity. Qed.

(** What [calculateMargin] computes, case by case: [0] when the price
    is not of type number, when the cost is not of type number, and
    when the price is [+0] or [-0]; for every other pair of numbers,
    [NaN] and the infinities among them,
    [roundNum (((price - cost) / price) * 100, 2)], whatever [roundNum]
    is.  So the margin of a [NaN] price, and that of a non-zero price at
    a [NaN] cost, is [roundNum (NaN, 2)]. *)
Theorem calculateMargin_cases (roundNum : float -> Z -> float) :
  (forall revenue cost : value,
     calculateMargin roundNum revenue cost
     = match revenue, cost with
       | VNumber p, VNumber c =>
           if PrimFloat.eqb p zero then zero
           else roundNum (((p - c) / p) * 100)%float 2%Z
       | _, _ => zero
       end) /\
  (forall c : float,
     calculateMargin roundNum (VNumber nan) (VNumber c) = roundNum nan 2%Z) /\
  (forall p : float,
     PrimFloat.eqb p zero = false ->
     calculateMargin roundNum (VNumber p) (VNumber nan) = roundNum nan 2%Z).
Proof.
  split; [|split].
  - intros revenue cost.
    destruct revenue as [| |b|p], cost as [| |b'|c]; reflexivity.
  - intro c. unfold calculateMargin. cbn [typeof typeTag_eqb ToNumber].
    change (strictEquals (VNumber nan) (VNumber zero)) with false.
    cbn [negb orb]. now rewrite nan_sub_l.
  - intros p Hp. unfold calculateMargin. cbn [typeof typeTag_eqb ToNumber].
    change (strictEquals (VNumber p) (VNumber zero)) with (PrimFloat.eqb p zero).
    rewrite Hp. cbn [negb orb]. now rewrite nan_sub_r, nan_div_l.
Qed.

(** An instance of [calculateMargin_cases]: a price of 100 at a [NaN]
    cost. *)
Lemma calculateMargin_100_at_NaN :
  calculateMargin Helper.roundNum (VNumber 100) (VNumber nan)
  = Helper.roundNum nan 2.
Proof.
  apply (proj2 (proj2 (calculateMargin_cases Helper.roundNum)) 100%float).
  reflexivity.
Defined.

(* ================================================================= *)
(** ** The price of a margin *)

(** A quotient by zero is never finite. *)
Lemma div_zero_cases (c : float) :
  (c / zero)%float = nan \/ (c / zero)%float = infinity \/
  (c / zero)%float = neg_infinity.
Proof.
  rewrite <- (SF2Prim_Prim2SF (c / zero)), FloatAxioms.div_spec.
  change (Prim2SF zero) with (S754_zero false).
  destruct (Prim2SF c) as [[|]|[|]| |[|] m e]; simpl; auto.
Qed.

(** C3, the failing input: at a margin of ["100"] the price that the
    margin callback stores is not finite, whatever the cost.  Item A
    costs 50: a margin edit of ["100"] commits, and the price the
    collection then holds is [Infinity]. *)
Theorem full_margin_stores_infinity :
  (forall c : float,
     is_finite (priceFromMargin Helper.roundNum (parseFloat "100") (VNumber c))
     = false) /\
  priceOf "A" Scenario.loaded = Some (VNumber 100) /\
  priceOf "A"
    (run Helper.roundNum Scenario.loaded
       [MarginInput "A" "100"; Elapse 500])
  = Some (VNumber infinity).
Proof.
  split.
  - intro c. unfold priceFromMargin. cbn [ToNumber].
    replace (1 - parseFloat "100" / 100)%float with zero
      by (vm_compute; reflexivity).
    destruct (div_zero_cases c) as [-> | [-> | ->]]; vm_compute; reflexivity.
  - vm_compute. split; reflexivity.
Qed.


(** [cents] agrees with [parseFloat] on the decimal notation. *)
Example cents_999 : cents 999 = parseFloat "9.99".
Proof. vm_compute. reflexivity. Qed.



(** The exact formulas give what the component gives for the price 150
    at the cost 1, and for the price 71.22 at the cost 50, which comes
    back as 71.23. *)
Example exact_roundTrip_150_at_cost_1 :
  (Exact.calculateMargin 150 1 == 9933 # 100)%Q /\
  (Exact.roundTrip 150 1 == 14925 # 100)%Q /\
  (Exact.roundTrip (7122 # 100) 50 == 7123 # 100)%Q /\
  roundTrip Helper.roundNum (parseFloat "71.22") 50 = parseFloat "71.23".
Proof. repeat split; vm_compute; reflexivity. Qed.

Section ExactRoundTrip.

Local Open Scope Q_scope.




End ExactRoundTrip.



(* ================================================================= *)
(** ** Saving *)

Lemma map_updateOf_fields (items : list cartItem) :
  Forall2
    (fun item r =>
       fields r = [("Id"%string, FString (Id item));
                   ("SalesPrice"%string, FValue (SalesPrice item))])
    items (map updateOf items).
Proof.
  induction items as [|x items IH]; simpl; constructor; [reflexivity|exact IH].
Qed.

Lemma saveChanges_requests_eq (api : writeApi) (s : state) :
  requests (saveChanges api s)
  = requests s ++ map updateOf (elems (cartItems s)).
Proof. unfold saveChanges. destruct (PromiseAll _); reflexivity. Qed.

(** C7: [saveChanges] makes one [updateRecord] call per item of the
    collection, in order, and the [fields] of each call are the item's
    [Id] and its current [SalesPrice] and nothing else: no margin and
    no cost. *)
Theorem saveChanges_payload (api : writeApi) (s : state) :
  exists issued : list recordInput,
    requests (saveChanges api s) = requests s ++ issued /\
    List.length issued = List.length (elems (cartItems s)) /\
    Forall2
      (fun item r =>
         fields r = [("Id"%string, FString (Id item));
                     ("SalesPrice"%string, FValue (SalesPrice item))])
      (elems (cartItems s)) issued /\
    Forall
      (fun r =>
         fieldNames r = ["Id"%string; "SalesPrice"%string] /\
         ~ In "margin"%string (fieldNames r) /\
         ~ In "Product_Cost__c"%string (fieldNames r) /\
         ~ In "Product2"%string (fieldNames r))
      issued.
Proof.
  exists (map updateOf (elems (cartItems s))).
  split; [apply saveChanges_requests_eq|].
  split; [apply length_map|].
  split; [apply map_updateOf_fields|].
  apply Forall_forall. intros r Hr. apply in_map_iff in Hr as [item [<- _]].
  unfold fieldNames; simpl.
  repeat split; intros [H|[H|[]]]; discriminate H.
Qed.

Lemma firstRejection_none (l : list settlement) :
  firstRejection l = None <-> existsb isRejection l = false.
Proof.
  induction l as [|x l IH]; simpl; [tauto|].
  destruct x as [t|t e|]; simpl; try exact IH.
  destruct (firstRejection l) as [[t' e']|].
  - destruct (t' <? t); split; discriminate.
  - split; discriminate.
Qed.

(** The rejection [Promise.all] reports is one of the rejections, and
    none came earlier. *)
Lemma firstRejection_earliest (l : list settlement) (t : nat) (e : jsError) :
  firstRejection l = Some (t, e) ->
  In (Rejects t e) l /\
  forall t' e', In (Rejects t' e') l -> t <= t'.
Proof.
  revert t e; induction l as [|x l IH]; simpl; intros t e H; [discriminate|].
  destruct x as [u|u d|].
  - destruct (IH t e H) as [Hin Hmin]. split; [now right|].
    intros t' e' [Hx|Hx]; [discriminate|eauto].
  - destruct (firstRejection l) as [[u' d']|] eqn:Hl.
    + destruct (IH u' d' eq_refl) as [Hin Hmin].
      destruct (u' <? u) eqn:Hlt.
      * injection H as <- <-. apply Nat.ltb_lt in Hlt.
        split; [now right|].
        intros t' e' [Hx|Hx].
        -- injection Hx as <- <-. lia.
        -- eauto.
      * injection H as <- <-. apply Nat.ltb_ge in Hlt.
        split; [now left|].
        intros t' e' [Hx|Hx].
        -- injection Hx as <- <-. lia.
        -- specialize (Hmin t' e' Hx). lia.
    + injection H as <- <-. split; [now left|].
      intros t' e' [Hx|Hx].
      * injection Hx as <- <-. lia.
      * apply firstRejection_none in Hl.
        assert (existsb isRejection l = true) as Hex
            by (apply existsb_exists; exists (Rejects t' e'); now split).
        congruence.
  - destruct (IH t e H) as [Hin Hmin]. split; [now right|].
    intros t' e' [Hx|Hx]; [discriminate|eauto].
Qed.

Lemma all_fulfil_iff (l : list settlement) :
  forallb isFulfilment l = true
  <-> existsb isRejection l = false /\ existsb isPending l = false.
Proof.
  induction l as [|x l IH]; simpl; [tauto|].
  destruct x; simpl; rewrite ?IH; intuition discriminate.
Qed.

Lemma PromiseAll_fulfilled (l : list settlement) :
  PromiseAll l = AllFulfilled <-> forallb isFulfilment l = true.
Proof.
  rewrite all_fulfil_iff. unfold PromiseAll.
  destruct (firstRejection l) as [[t e]|] eqn:Hl.
  - split; [discriminate|]. intros [Hr _].
    apply firstRejection_none in Hr. congruence.
  - apply firstRejection_none in Hl.
    destruct (existsb isPending l); intuition congruence.
Qed.

Lemma app_one_neq {A : Type} (l : list A) (x : A) : l <> l ++ [x].
Proof.
  intro H. apply (f_equal (@List.length A)) in H.
  rewrite length_app in H. simpl in H. lia.
Qed.

(** C6: [saveChanges] shows the success toast exactly when every write
    it issued fulfils.  When a write rejects, it shows the error toast,
    [errorMsg] is the detail of the rejection that came first
    ([body.message] when the error has a body, [message] otherwise), and
    [cartItems] is the array, and the items, it was before. *)
Theorem saveChanges_outcome (api : writeApi) (s : state) :
  (toasts (saveChanges api s)
   = toasts s ++ [successToast "Changes saved successfully"]
   <-> forallb isFulfilment
         (mapi api (map updateOf (elems (cartItems s)))) = true) /\
  (existsb isRejection (mapi api (map updateOf (elems (cartItems s)))) = true ->
   exists (t : nat) (e : jsError),
     In (Rejects t e) (mapi api (map updateOf (elems (cartItems s)))) /\
     (forall t' e',
        In (Rejects t' e') (mapi api (map updateOf (elems (cartItems s)))) ->
        t <= t') /\
     toasts (saveChanges api s) = toasts s ++ [errorToast "Error saving changes"] /\
     errorMsg (saveChanges api s)
     = match body e with
       | Some b => option_map ErrText (bodyMessage b)
       | None => option_map ErrText (message e)
       end /\
     cartItems (saveChanges api s) = cartItems s).
Proof.
  set (outcomes := mapi api (map updateOf (elems (cartItems s)))).
  split.
  - rewrite <- PromiseAll_fulfilled. unfold saveChanges. fold outcomes.
    destruct (PromiseAll outcomes) as [|e|]; simpl.
    + tauto.
    + split; [|discriminate]. intro H.
      apply app_inv_head in H. discriminate.
    + split; [|discriminate]. intro H. now apply app_one_neq in H.
  - intro Hrej.
    destruct (firstRejection outcomes) as [[t e]|] eqn:Hfirst.
    + destruct (firstRejection_earliest outcomes t e Hfirst) as [Hin Hmin].
      exists t, e. split; [assumption|]. split; [assumption|].
      unfold saveChanges, PromiseAll. fold outcomes. rewrite Hfirst.
      simpl. repeat split.
    + apply firstRejection_none in Hfirst. congruence.
Qed.

(** An instance of [saveChanges_outcome]: when both writes of the
    two-item cart fulfil, the success toast is shown; when both reject,
    the second one first, the error toast is shown, the detail kept is
    that of the second, and the collection is the one loaded. *)
Lemma saveChanges_outcome_on_two_items :
  toasts (saveChanges Scenario.allFulfil Scenario.loaded)
  = [successToast "Changes saved successfully"] /\
  toasts (saveChanges Scenario.twoReject Scenario.loaded)
  = [errorToast "Error saving changes"] /\
  errorMsg (saveChanges Scenario.twoReject Scenario.loaded)
  = Some (ErrText "early") /\
  cartItems (saveChanges Scenario.twoReject Scenario.loaded)
  = cartItems Scenario.loaded.
Proof.
  destruct (saveChanges_outcome Scenario.allFulfil Scenario.loaded)
    as [[_ Hsuccess] _].
  destruct (saveChanges_outcome Scenario.twoReject Scenario.loaded)
    as [_ H].
  destruct (H eq_refl) as (t & e & _ & _ & Htoast & _ & Hitems).
  split; [exact (Hsuccess eq_refl)|].
  split; [exact Htoast|]. split; [reflexivity|exact Hitems].
Defined.

(* ================================================================= *)
(** ** Loading *)

Lemma mapItems_total (roundNum : float -> Z -> float) (d : list rawItem) :
  Forall (fun item => rawProduct2 item <> None) d ->
  exists items, mapItems roundNum d = Some items /\
                List.length items = List.length d.
Proof.
  induction 1 as [|x d Hx Hd IH]; simpl.
  - now exists [].
  - destruct IH as (items & Hitems & Hlen).
    unfold mapItem. destruct (rawProduct2 x) as [p|]; [|contradiction].
    rewrite Hitems. simpl. eexists; split; [reflexivity|]. simpl. now rewrite Hlen.
Qed.

(** C9, as stated, fails: the two items are loaded, then the source
    reports an error; the error is recorded and nothing is thrown, but
    the collection still holds the two items. *)
Lemma fetch_error_keeps_items :
  fst (wiredCart Helper.roundNum Scenario.failed Scenario.loaded) = Normal /\
  errorMsg (snd (wiredCart Helper.roundNum Scenario.failed Scenario.loaded))
  = Some (ErrObject Scenario.failure) /\
  cartItems (snd (wiredCart Helper.roundNum Scenario.failed Scenario.loaded))
  = cartItems Scenario.loaded /\
  List.length
    (elems (cartItems
              (snd (wiredCart Helper.roundNum Scenario.failed Scenario.loaded))))
  = 2.
Proof. vm_compute. repeat split. Qed.

(** C9, amended: when the source reports an error instead of data, the
    wired function records the error and leaves the collection as it
    was (empty only if it was empty), and throws nothing; when data is
    supplied in which every item carries its product, it throws nothing,
    clears the recorded error and holds one item per supplied item. *)
Theorem wiredCart_branches (roundNum : float -> Z -> float)
  (r : wireResult) (s : state) :
  (forall e,
     data r = None -> error r = Some e ->
     fst (wiredCart roundNum r s) = Normal /\
     errorMsg (snd (wiredCart roundNum r s)) = Some (ErrObject e) /\
     cartItems (snd (wiredCart roundNum r s)) = cartItems s) /\
  (forall d,
     data r = Some d ->
     Forall (fun item => rawProduct2 item <> None) d ->
     fst (wiredCart roundNum r s) = Normal /\
     errorMsg (snd (wiredCart roundNum r s)) = None /\
     mapItems roundNum d
     = Some (elems (cartItems (snd (wiredCart roundNum r s)))) /\
     List.length (elems (cartItems (snd (wiredCart roundNum r s))))
     = List.length d).
Proof.
  split.
  - intros e Hd He. unfold wiredCart. rewrite Hd, He. simpl. repeat split.
  - intros d Hd Hall.
    destruct (mapItems_total roundNum d Hall) as (items & Hitems & Hlen).
    unfold wiredCart. rewrite Hd, Hitems. simpl. repeat split; assumption.
Qed.

(** An instance of [wiredCart_branches]: an error reported to a
    component that has loaded nothing. *)
Lemma wiredCart_error_on_initial :
  fst (wiredCart Helper.roundNum Scenario.failed initial) = Normal /\
  errorMsg (snd (wiredCart Helper.roundNum Scenario.failed initial))
  = Some (ErrObject Scenario.failure) /\
  cartItems (snd (wiredCart Helper.roundNum Scenario.failed initial))
  = cartItems initial.
Proof.
  apply (proj1 (wiredCart_branches Helper.roundNum Scenario.failed initial)
           Scenario.failure); reflexivity.
Defined.

(* ================================================================= *)
(** ** Edits *)

Section Edits.

Variable roundNum : float -> Z -> float.

Lemma debounce_quiescent (f : field) (cb : callback) (s : state) :
  timers s = [] ->
  timers (debounce f cb s)
  = [mkTimer (nextHandle s) (clock s + quietPeriod) cb].
Proof.
  intro Ht. rewrite debounce_timers. unfold afterClear. rewrite Ht.
  destruct (slot f s); reflexivity.
Qed.

(** With one timer pending and due, [elapse] runs its callback. *)
Lemma elapse_single (t : timer) (dt : nat) (s : state) :
  timers s = [t] -> deadline t <= clock s + dt ->
  elapse roundNum dt s
  = runCallback roundNum (action t)
      (withTimers [] (withClock (clock s + dt) s)).
Proof.
  intros Ht Hle. rewrite elapse_eq, Ht. simpl.
  assert (Hdue : due (clock s + dt) t = true)
    by (unfold due; now apply Nat.leb_le).
  rewrite Hdue. reflexivity.
Qed.

Lemma find_mutateFound (id : string) (g : cartItem -> cartItem)
  (l : list cartItem) (item : cartItem) :
  (forall x, Id (g x) = Id x) ->
  find (hasId id) l = Some item ->
  find (hasId id) (mutateFound id g l) = Some (g item).
Proof.
  intros Hg. induction l as [|x l IH]; simpl; [discriminate|].
  destruct (hasId id x) eqn:Hx; simpl.
  - intro H. injection H as <-.
    unfold hasId in *. now rewrite Hg, Hx.
  - rewrite Hx. exact IH.
Qed.

Lemma runCallback_refsFresh (cb : callback) (s : state) :
  refsFresh s -> refsFresh (runCallback roundNum cb s).
Proof.
  unfold refsFresh.
  destruct cb as [id value|id value]; simpl; unfold timeoutBody; simpl;
    destruct (find (hasId id) (elems (cartItems s))); simpl; lia.
Qed.

Lemma fire_refsFresh (l : list timer) (s : state) :
  refsFresh s -> refsFresh (fire roundNum l s).
Proof.
  revert s; induction l as [|t l IH]; intros s H; [assumption|].
  rewrite fire_cons. apply IH, runCallback_refsFresh, H.
Qed.

(** When the item is found, the collection becomes a new array. *)
Lemma timeoutBody_found (f : field) (id value : string) (s : state)
  (item : cartItem) :
  find (hasId id) (elems (cartItems s)) = Some item ->
  cartItems (timeoutBody roundNum f id value s)
  = mkArray (nextRef s)
      (mutateFound id (commit roundNum f value) (elems (cartItems s))).
Proof.
  intro Hfind. unfold timeoutBody. simpl. now rewrite Hfind.
Qed.

(** Every step keeps the array the component holds older than the next
    one the host hands out. *)
Lemma refsFresh_step (s : state) (e : event) :
  refsFresh s -> refsFresh (step roundNum s e).
Proof.
  unfold refsFresh. intro H.
  destruct e as [r|id v|id v|api|o|dt].
  - simpl. unfold wiredCart.
    destruct (data r) as [d|]; [destruct (mapItems roundNum d)|destruct (error r)];
      simpl; lia.
  - change (step roundNum s (PriceInput id v))
      with (debounce Price (PriceTimeout id v) s).
    destruct (debounce_frame Price (PriceTimeout id v) s)
      as (_ & _ & _ & _ & _ & Hi & _ & _ & _ & Hn).
    now rewrite Hi, Hn.
  - change (step roundNum s (MarginInput id v))
      with (debounce Margin (MarginTimeout id v) s).
    destruct (debounce_frame Margin (MarginTimeout id v) s)
      as (_ & _ & _ & _ & _ & Hi & _ & _ & _ & Hn).
    now rewrite Hi, Hn.
  - simpl. unfold saveChanges. destruct (PromiseAll _); simpl; lia.
  - simpl. unfold refreshCartItems, wiredCart.
    destruct (provisioned o) as [r|];
      [destruct (data r) as [d|];
       [destruct (mapItems roundNum d)|destruct (error r)]|];
      destruct (refreshRejected o); simpl; lia.
  - change (step roundNum s (Elapse dt)) with (elapse roundNum dt s).
    rewrite elapse_eq. now apply fire_refsFresh.
Qed.

Lemma refsFresh_run (es : list event) (s : state) :
  refsFresh s -> refsFresh (run roundNum s es).
Proof.
  revert s; induction es as [|e es IH]; intros s H; simpl.
  - assumption.
  - apply IH, refsFresh_step, H.
Qed.

End Edits.

(* ----------------------------------------------------------------- *)
(** *** Read-only items *)

(** C2, as stated, fails: item A is read-only; a price edit of ["10"]
    commits all the same: the price becomes 10, the margin -400, the
    collection is a new array, and nothing is signalled. *)
Lemma locked_item_price_edit_commits :
  lockOf "A" Scenario.loaded = Some (VBool true) /\
  priceOf "A" Scenario.loaded = Some (VNumber 100) /\
  marginOf "A" Scenario.loaded = Some 50%float /\
  priceOf "A"
    (run Helper.roundNum Scenario.loaded [PriceInput "A" "10"; Elapse 500])
  = Some (VNumber 10) /\
  marginOf "A"
    (run Helper.roundNum Scenario.loaded [PriceInput "A" "10"; Elapse 500])
  = Some (-400)%float /\
  ref (cartItems
         (run Helper.roundNum Scenario.loaded [PriceInput "A" "10"; Elapse 500]))
  <> ref (cartItems Scenario.loaded) /\
  toasts (run Helper.roundNum Scenario.loaded [PriceInput "A" "10"; Elapse 500])
  = [] /\
  errorMsg (run Helper.roundNum Scenario.loaded [PriceInput "A" "10"; Elapse 500])
  = None.
Proof. vm_compute. repeat split; discriminate. Qed.

(** C2, amended: [updatePrice] does not consult the read-only flag.  A
    price edit of an item of the collection, read-only or not, with no
    other timer pending, commits after the quiet period: the item's
    price is the parsed value and its margin is recomputed, its
    read-only flag and product are as before, the collection is a new
    array, and no toast is shown and no error recorded. *)
Theorem price_edit_commits_whatever_the_lock
  (roundNum : float -> Z -> float) (s : state) (id value : string)
  (item : cartItem) (dt : nat) :
  timers s = [] ->
  refsFresh s ->
  find (hasId id) (elems (cartItems s)) = Some item ->
  quietPeriod <= dt ->
  find (hasId id)
    (elems (cartItems (run roundNum s [PriceInput id value; Elapse dt])))
  = Some {| Id := Id item;
            SalesPrice := VNumber (parseFloat value);
            Product2 := Product2 item;
            margin := calculateMargin roundNum (VNumber (parseFloat value))
                        (Product_Cost__c (Product2 item));
            readonly := readonly item |} /\
  ref (cartItems (run roundNum s [PriceInput id value; Elapse dt]))
  <> ref (cartItems s) /\
  toasts (run roundNum s [PriceInput id value; Elapse dt]) = toasts s /\
  errorMsg (run roundNum s [PriceInput id value; Elapse dt]) = errorMsg s.
Proof.
  intros Ht Hfresh Hfind Hdt.
  change (run roundNum s [PriceInput id value; Elapse dt])
    with (elapse roundNum dt (debounce Price (PriceTimeout id value) s)).
  set (s1 := debounce Price (PriceTimeout id value) s).
  pose proof (debounce_quiescent Price (PriceTimeout id value) s Ht) as Ht1.
  destruct (debounce_frame Price (PriceTimeout id value) s)
    as (Hclk & _ & _ & _ & _ & Hitems & Htoasts & Herr & _ & Href).
  fold s1 in Ht1, Hclk, Hitems, Htoasts, Herr, Href.
  rewrite (elapse_single roundNum _ dt s1 Ht1) by (cbn [deadline]; lia).
  simpl action.
  set (s2 := withTimers [] (withClock (clock s1 + dt) s1)).
  assert (Hitems2 : cartItems s2 = cartItems s) by exact Hitems.
  repeat split.
  - change (runCallback roundNum (PriceTimeout id value) s2)
      with (timeoutBody roundNum Price id value s2).
    rewrite timeoutBody_elems, Hitems2.
    apply (find_mutateFound id (setPrice roundNum value) _ item);
      [reflexivity|assumption].
  - change (runCallback roundNum (PriceTimeout id value) s2)
      with (timeoutBody roundNum Price id value s2).
    rewrite (timeoutBody_found roundNum Price id value s2 item)
      by (now rewrite Hitems2).
    change (nextRef s2) with (nextRef s1). rewrite Href. simpl.
    unfold refsFresh in Hfresh. lia.
  - destruct (runCallback_frame roundNum (PriceTimeout id value) s2)
      as (_ & _ & _ & _ & _ & -> & _). exact Htoasts.
  - destruct (runCallback_frame roundNum (PriceTimeout id value) s2)
      as (_ & _ & _ & _ & _ & _ & -> & _). exact Herr.
Qed.

Lemma wellFormed_loaded : wellFormed Scenario.loaded.
Proof. apply wellFormed_run, wellFormed_initial. Qed.

(** An instance of [price_edit_commits_whatever_the_lock]: the price
    edit of ["10"] on the read-only item A. *)
Lemma price_edit_commits_on_locked_A :
  lockOf "A"
    (run Helper.roundNum Scenario.loaded [PriceInput "A" "10"; Elapse 500])
  = Some (VBool true) /\
  priceOf "A"
    (run Helper.roundNum Scenario.loaded [PriceInput "A" "10"; Elapse 500])
  = Some (VNumber (parseFloat "10")).
Proof.
  destruct (price_edit_commits_whatever_the_lock Helper.roundNum
              Scenario.loaded "A" "10"
              {| Id := "A"; SalesPrice := VNumber 100;
                 Product2 := mkProduct2 (VNumber 50) (VBool true);
                 margin := 50; readonly := VBool true |} 500)
    as (Hfind & _).
  - reflexivity.
  - unfold refsFresh. simpl. lia.
  - reflexivity.
  - unfold quietPeriod. lia.
  - unfold lockOf, priceOf. rewrite Hfind. split; reflexivity.
Defined.

(* ----------------------------------------------------------------- *)
(** *** Refreshing *)




(* ----------------------------------------------------------------- *)
(** *** Debouncing *)

(** After an edit of [f] in a well-formed state, its timer is the one
    pending timer of [f], due a quiet period later. *)
Lemma first_edit (roundNum : float -> Z -> float) (f : field)
  (id value : string) (s : state) :
  wellFormed s ->
  let s1 := step roundNum s (input f id value) in
  wellFormed s1 /\
  pending f s1
  = [mkTimer (nextHandle s) (clock s + quietPeriod) (callbackOf f id value)] /\
  pending (other f) s1 = pending (other f) s /\
  clock s1 = clock s /\ cartItems s1 = cartItems s /\
  (forall g, commits g s1 = commits g s).
Proof.
  intro Hwf. simpl. rewrite step_input.
  destruct (debounce_frame f (callbackOf f id value) s)
    as (Hclk & _ & _ & _ & _ & Hitems & _).
  split; [apply wellFormed_debounce;
          [apply fieldOf_callbackOf|assumption]|].
  split; [apply debounce_pending; [assumption|apply fieldOf_callbackOf]|].
  split; [apply debounce_pending_other;
          [assumption|apply fieldOf_callbackOf]|].
  repeat split; try assumption.
  intro g. apply debounce_commits.
Qed.

Lemma mutateFound_split (id : string) (g : cartItem -> cartItem)
  (before after : list cartItem) (x : cartItem) :
  find (hasId id) before = None ->
  hasId id x = true ->
  mutateFound id g (before ++ x :: after) = before ++ g x :: after.
Proof.
  intros Hnone Hx. induction before as [|y before IH]; simpl in *.
  - now rewrite Hx.
  - destruct (hasId id y); [discriminate|]. f_equal. now apply IH.
Qed.

Lemma mutateFound_ids (id : string) (g : cartItem -> cartItem)
  (l : list cartItem) :
  (forall x, Id (g x) = Id x) ->
  map Id (mutateFound id g l) = map Id l.
Proof.
  intro Hg. induction l as [|x l IH]; simpl; [reflexivity|].
  destruct (hasId id x); simpl; [now rewrite Hg|now rewrite IH].
Qed.

Lemma mutateFound_others (id id' : string) (g : cartItem -> cartItem)
  (l : list cartItem) :
  (forall x, Id (g x) = Id x) ->
  id' <> id ->
  filter (hasId id') (mutateFound id g l) = filter (hasId id') l.
Proof.
  intros Hg Hne. induction l as [|x l IH]; simpl; [reflexivity|].
  destruct (hasId id x) eqn:Hx; simpl.
  - unfold hasId in *. rewrite Hg.
    apply String.eqb_eq in Hx.
    assert (Hx' : String.eqb (Id x) id' = false)
      by (apply String.eqb_neq; congruence).
    now rewrite Hx'.
  - now rewrite IH.
Qed.

Lemma commit_keeps_Id (roundNum : float -> Z -> float) (f : field)
  (value : string) (x : cartItem) :
  Id (commit roundNum f value x) = Id x.
Proof. destruct f; reflexivity. Qed.

Lemma find_filter {A : Type} (p : A -> bool) (l : list A) :
  find p l = hd_error (filter p l).
Proof.
  induction l as [|x l IH]; simpl; [reflexivity|].
  destruct (p x); [reflexivity|exact IH].
Qed.

Lemma run_app (roundNum : float -> Z -> float) (s : state)
  (es es' : list event) :
  run roundNum s (es ++ es') = run roundNum (run roundNum s es) es'.
Proof. unfold run. apply fold_left_app. Qed.

Lemma elapse_clock (roundNum : float -> Z -> float) (dt : nat) (s : state) :
  clock (elapse roundNum dt s) = clock s + dt.
Proof.
  rewrite elapse_eq.
  match goal with |- clock (fire _ ?l ?s0) = _ =>
    destruct (fire_frame roundNum l s0) as (_ & -> & _) end.
  reflexivity.
Qed.

(** An event that is neither an edit of [f] nor the passing of time
    leaves the timer of [f], and what [f] has committed, as they are. *)
Lemma other_event (roundNum : float -> Z -> float) (f : field) (e : event)
  (s : state) :
  wellFormed s -> editsField f e = false -> (forall dt, e <> Elapse dt) ->
  pending f (step roundNum s e) = pending f s /\
  commits f (step roundNum s e) = commits f s /\
  clock (step roundNum s e) = clock s.
Proof.
  intros Hwf He Hne.
  destruct e as [r|id v|id v|api|o|dt]; cbn [step].
  - destruct (wiredCart_frame roundNum r s) as (Ht & Hc & _ & _ & _ & Hl & _).
    unfold pending, commits. rewrite Ht, Hl. repeat split. exact Hc.
  - cbn [editsField] in He. destruct f; [discriminate|].
    unfold updatePrice.
    destruct (debounce_frame Price (PriceTimeout id v) s) as (Hc & _).
    split; [|split; [apply debounce_commits|exact Hc]].
    apply (debounce_pending_other Price (PriceTimeout id v) s Hwf eq_refl).
  - cbn [editsField] in He. destruct f; [|discriminate].
    unfold updateMargin.
    destruct (debounce_frame Margin (MarginTimeout id v) s) as (Hc & _).
    split; [|split; [apply debounce_commits|exact Hc]].
    apply (debounce_pending_other Margin (MarginTimeout id v) s Hwf eq_refl).
  - destruct (saveChanges_frame api s) as (Ht & Hc & _ & _ & _ & Hl).
    unfold pending, commits. rewrite Ht, Hl. repeat split. exact Hc.
  - destruct (refreshCartItems_frame roundNum o s)
      as (Ht & Hc & _ & _ & _ & Hl).
    unfold pending, commits. rewrite Ht, Hl. repeat split. exact Hc.
  - exfalso. now apply (Hne dt).
Qed.

(** While the timer of [f] is not yet due, no event but an edit of [f]
    removes it or runs it. *)
Lemma timer_waits (roundNum : float -> Z -> float) (f : field)
  (es : list event) :
  forall (s : state) (t : timer),
    wellFormed s -> pending f s = [t] -> noEditOf f es ->
    clock s + elapsed es < deadline t ->
    pending f (run roundNum s es) = [t] /\
    commits f (run roundNum s es) = commits f s /\
    clock (run roundNum s es) = clock s + elapsed es.
Proof.
  induction es as [|e es IH]; intros s t Hwf Hp Hq Hlt.
  - cbn [run fold_left elapsed]. repeat split; try assumption. lia.
  - inversion Hq as [|x l He Hq' E]; subst.
    cbn [elapsed] in Hlt |- *.
    change (run roundNum s (e :: es))
      with (run roundNum (step roundNum s e) es).
    pose proof (wellFormed_step roundNum s e Hwf) as Hwf1.
    assert (H1 : pending f (step roundNum s e) = [t] /\
                 commits f (step roundNum s e) = commits f s /\
                 clock (step roundNum s e) = clock s + duration e).
    { destruct e as [r|id v|id v|api|o|dt];
        try (destruct (other_event roundNum f _ s Hwf He) as (Hp1 & Hc1 & Hk1);
             [intros dt' Hd; discriminate Hd|];
             cbn [duration]; rewrite Hp1, Hc1, Hk1;
             repeat split; [assumption|lia]).
      cbn [step duration] in *.
      destruct (elapse_before roundNum f t dt s Hp) as [Hp1 Hc1]; [lia|].
      repeat split; [assumption|assumption|apply elapse_clock]. }
    destruct H1 as (Hp1 & Hc1 & Hk1).
    destruct (IH (step roundNum s e) t Hwf1 Hp1 Hq') as (Hp2 & Hc2 & Hk2);
      [lia|].
    repeat split; [assumption|congruence|lia].
Qed.

(** With no timer of [f] pending, nothing of [f] is committed until the
    next edit of [f]. *)
Lemma no_timer_no_commit (roundNum : float -> Z -> float) (f : field)
  (es : list event) :
  forall s : state,
    wellFormed s -> pending f s = [] -> noEditOf f es ->
    pending f (run roundNum s es) = [] /\
    commits f (run roundNum s es) = commits f s.
Proof.
  induction es as [|e es IH]; intros s Hwf Hp Hq.
  - split; [assumption|reflexivity].
  - inversion Hq as [|x l He Hq' E]; subst.
    change (run roundNum s (e :: es))
      with (run roundNum (step roundNum s e) es).
    pose proof (wellFormed_step roundNum s e Hwf) as Hwf1.
    assert (H1 : pending f (step roundNum s e) = [] /\
                 commits f (step roundNum s e) = commits f s).
    { destruct e as [r|id v|id v|api|o|dt];
        try (destruct (other_event roundNum f _ s Hwf He) as (Hp1 & Hc1 & _);
             [intros dt' Hd; discriminate Hd|];
             rewrite Hp1, Hc1; split; [assumption|reflexivity]).
      cbn [step].
      rewrite elapse_pending, elapse_commits, Hp. cbn [filter map].
      split; [reflexivity|apply app_nil_r]. }
    destruct H1 as (Hp1 & Hc1).
    destruct (IH (step roundNum s e) Hwf1 Hp1 Hq') as (Hp2 & Hc2).
    split; [assumption|congruence].
Qed.

(** Once the quiet period has passed with no edit of [f], the timer of
    [f] has run, once, whatever else has happened meanwhile. *)
Lemma timer_fires (roundNum : float -> Z -> float) (f : field)
  (es : list event) :
  forall (s : state) (t : timer),
    wellFormed s -> pending f s = [t] -> noEditOf f es ->
    clock s < deadline t ->
    deadline t <= clock s + elapsed es ->
    pending f (run roundNum s es) = [] /\
    commits f (run roundNum s es) = commits f s ++ [entryOf (action t)].
Proof.
  induction es as [|e es IH]; intros s t Hwf Hp Hq Hlt Hle.
  - cbn [elapsed] in Hle. lia.
  - inversion Hq as [|x l He Hq' E]; subst.
    cbn [elapsed] in Hle.
    change (run roundNum s (e :: es))
      with (run roundNum (step roundNum s e) es).
    pose proof (wellFormed_step roundNum s e Hwf) as Hwf1.
    destruct (le_lt_dec (deadline t) (clock s + duration e)) as [Hdue|Hnot].
    + destruct e as [r|id v|id v|api|o|dt];
        try (cbn [duration] in Hdue; lia).
      cbn [step duration] in *.
      destruct (elapse_after roundNum f t dt s Hp Hdue) as [Hp1 Hc1].
      destruct (no_timer_no_commit roundNum f es _ Hwf1 Hp1 Hq')
        as (Hp2 & Hc2).
      split; [assumption|congruence].
    + destruct (timer_waits roundNum f [e] s t Hwf Hp) as (Hp1 & Hc1 & Hk1).
      * constructor; [assumption|constructor].
      * cbn [elapsed]. lia.
      * cbn [elapsed] in Hk1.
        change (run roundNum s [e]) with (step roundNum s e) in Hp1, Hc1, Hk1.
        destruct (IH (step roundNum s e) t Hwf1 Hp1 Hq') as (Hp2 & Hc2);
          [lia|lia|].
        split; [assumption|congruence].
Qed.

(** Edits of [f] that each come within the quiet period of the one
    before, with anything but an edit of [f] between them, and then a
    quiet period: the last edit is committed and nothing else of [f]
    is. *)
Lemma interleaved_settles (roundNum : float -> Z -> float) (f : field)
  (segs : list (list event * (string * string))) :
  forall (s : state) (id value : string) (t : timer) (tail : list event),
    wellFormed s ->
    pending f s = [t] ->
    deadline t = clock s + quietPeriod ->
    action t = callbackOf f id value ->
    shortGaps f segs ->
    noEditOf f tail ->
    quietPeriod <= elapsed tail ->
    commits f (run roundNum s (interleaved f segs ++ tail))
    = commits f s
      ++ [LogUpdating f (fst (lastOf segs (id, value)))
            (snd (lastOf segs (id, value)))] /\
    pending f (run roundNum s (interleaved f segs ++ tail)) = [].
Proof.
  induction segs as [|[between [id' value']] segs IH];
    intros s id value t tail Hwf Hp Hd Ha Hg Hq Hdt.
  - cbn [interleaved app lastOf fst snd].
    destruct (timer_fires roundNum f tail s t Hwf Hp Hq) as (Hp1 & Hc1);
      [unfold quietPeriod in *; lia|lia|].
    rewrite Ha, entryOf_callbackOf in Hc1. split; assumption.
  - inversion Hg as [|x l [Hno Hgap] Hg' E]; subst. cbn [fst] in Hno, Hgap.
    cbn [interleaved lastOf].
    rewrite <- app_assoc, run_app.
    destruct (timer_waits roundNum f between s t Hwf Hp Hno)
      as (Hp1 & Hc1 & Hk1); [lia|].
    pose proof (wellFormed_run roundNum between s Hwf) as Hwf1.
    set (s1 := run roundNum s between) in *.
    cbn [app].
    change (run roundNum s1
              (input f id' value' :: interleaved f segs ++ tail))
      with (run roundNum (step roundNum s1 (input f id' value'))
              (interleaved f segs ++ tail)).
    destruct (first_edit roundNum f id' value' s1 Hwf1)
      as (Hwf2 & Hp2 & _ & Hk2 & _ & Hc2).
    destruct (IH (step roundNum s1 (input f id' value')) id' value' _ tail
                Hwf2 Hp2) as (Hc & Hp'); try assumption.
    + cbn [deadline]. now rewrite Hk2.
    + reflexivity.
    + split; [|assumption]. now rewrite Hc, Hc2, Hc1.
Qed.

(** C8, as stated, fails: the price of item A is typed as ["1"],
    ["12"], ["125"], 100 ms apart, a burst on the pair (A, price); 100
    ms later the price of item B is edited.  No edit of the burst is
    committed: the one commit of a price is that of B, and item A keeps
    the price 100 and the margin 50 it had. *)
Lemma burst_on_A_is_lost_to_an_edit_of_B :
  commits Price
    (run Helper.roundNum Scenario.loaded
       [PriceInput "A" "1"; Elapse 100; PriceInput "A" "12"; Elapse 100;
        PriceInput "A" "125"; Elapse 100; PriceInput "B" "30"; Elapse 500])
  = [LogUpdating Price "B" "30"] /\
  priceOf "A" Scenario.loaded = Some (VNumber 100) /\
  priceOf "A"
    (run Helper.roundNum Scenario.loaded
       [PriceInput "A" "1"; Elapse 100; PriceInput "A" "12"; Elapse 100;
        PriceInput "A" "125"; Elapse 100; PriceInput "B" "30"; Elapse 500])
  = Some (VNumber 100) /\
  marginOf "A"
    (run Helper.roundNum Scenario.loaded
       [PriceInput "A" "1"; Elapse 100; PriceInput "A" "12"; Elapse 100;
        PriceInput "A" "125"; Elapse 100; PriceInput "B" "30"; Elapse 500])
  = Some 50%float.
Proof. vm_compute. repeat split. Qed.

(** C8, amended: the edits coalesce per field, not per (id, field)
    pair.  Of a burst of edits of one field, whatever their ids, each
    within the quiet period of the one before, exactly one is committed
    once a quiet period has passed with no further edit of the field:
    the last one, with its id and its value; no timer of the field is
    left.  Edits of the other field, saves, refreshes and provisionings
    between the edits or after them change nothing of this.  When the
    burst is all that happens and no timer of the other field was
    pending, the item with the id of the last edit holds what its
    callback stores (a price edit: the parsed price and its margin; a
    margin edit: the parsed margin and its price), and every item with
    another id is as before the burst. *)
Theorem burst_commits_last_edit_of_field (roundNum : float -> Z -> float)
  (s : state) (f : field) (id first : string) :
  wellFormed s ->
  (forall (segs : list (list event * (string * string)))
          (tail : list event),
     shortGaps f segs ->
     noEditOf f tail ->
     quietPeriod <= elapsed tail ->
     commits f
       (run roundNum s (input f id first :: interleaved f segs ++ tail))
     = commits f s
       ++ [LogUpdating f (fst (lastOf segs (id, first)))
             (snd (lastOf segs (id, first)))] /\
     pending f
       (run roundNum s (input f id first :: interleaved f segs ++ tail))
     = []) /\
  (forall (rest : list (nat * (string * string))) (dt : nat)
          (item : cartItem),
     withinQuiet rest ->
     quietPeriod <= dt ->
     pending (other f) s = [] ->
     find (hasId (fst (lastEdit rest (id, first)))) (elems (cartItems s))
     = Some item ->
     find (hasId (fst (lastEdit rest (id, first))))
       (elems (cartItems
                 (run roundNum s
                    (input f id first :: burst f rest ++ [Elapse dt]))))
     = Some
         match f with
         | Price =>
             {| Id := Id item;
                SalesPrice :=
                  VNumber (parseFloat (snd (lastEdit rest (id, first))));
                Product2 := Product2 item;
                margin :=
                  calculateMargin roundNum
                    (VNumber (parseFloat (snd (lastEdit rest (id, first)))))
                    (Product_Cost__c (Product2 item));
                readonly := readonly item |}
         | Margin =>
             {| Id := Id item;
                SalesPrice :=
                  VNumber
                    (roundNum
                       (ToNumber (Product_Cost__c (Product2 item))
                        / (1 - parseFloat (snd (lastEdit rest (id, first)))
                               / 100))%float 2%Z);
                Product2 := Product2 item;
                margin := parseFloat (snd (lastEdit rest (id, first)));
                readonly := readonly item |}
         end /\
     (forall id' : string,
        id' <> fst (lastEdit rest (id, first)) ->
        filter (hasId id')
          (elems (cartItems
                    (run roundNum s
                       (input f id first :: burst f rest ++ [Elapse dt]))))
        = filter (hasId id') (elems (cartItems s)))).
Proof.
  intro Hwf.
  destruct (first_edit roundNum f id first s Hwf)
    as (Hwf1 & Hp1 & Ho1 & Hclk1 & Hitems1 & Hc1).
  split.
  - intros segs tail Hg Hq Hdt.
    change (run roundNum s (input f id first :: interleaved f segs ++ tail))
      with (run roundNum (step roundNum s (input f id first))
              (interleaved f segs ++ tail)).
    destruct (interleaved_settles roundNum f segs
                (step roundNum s (input f id first)) id first _ tail
                Hwf1 Hp1) as (Hc & Hp); try assumption.
    + cbn [deadline]. now rewrite Hclk1.
    + reflexivity.
    + split; [now rewrite Hc, Hc1|assumption].
  - intros rest dt item Hq Hdt Ho Hfind.
    change (run roundNum s (input f id first :: burst f rest ++ [Elapse dt]))
      with (run roundNum (step roundNum s (input f id first))
              (burst f rest ++ [Elapse dt])).
    destruct (burst_settles roundNum f rest
                (step roundNum s (input f id first)) id first _ dt
                Hwf1 Hp1) as (_ & _ & He); try assumption.
    + cbn [deadline]. now rewrite Hclk1.
    + reflexivity.
    + rewrite He, Hitems1 by (now rewrite Ho1).
      split.
      * destruct f.
        -- apply (find_mutateFound _
                    (setPrice roundNum (snd (lastEdit rest (id, first))))
                    _ item); [reflexivity|assumption].
        -- apply (find_mutateFound _
                    (setMargin roundNum (snd (lastEdit rest (id, first))))
                    _ item); [reflexivity|assumption].
      * intros id' Hne.
        apply mutateFound_others; [apply commit_keeps_Id|exact Hne].
Qed.

(** An instance of [burst_commits_last_edit_of_field]: the price of
    item A, which costs 50, is typed as ["1"], ["12"], ["125"], 100 ms
    apart.  With a margin edit of B, a save and a refresh in between,
    the one price committed is ["125"] on A; with nothing in between,
    item A then holds the price 125 and the margin 60, and item B its
    price 20. *)
Lemma burst_of_three_on_A_stores_125 :
  commits Price
    (run Helper.roundNum Scenario.loaded
       [PriceInput "A" "1"; Elapse 100; MarginInput "B" "50";
        PriceInput "A" "12"; SaveClick Scenario.allFulfil; Elapse 100;
        PriceInput "A" "125"; Elapse 300;
        RefreshClick (mkRefreshOutcome (Some Scenario.fetched) false);
        Elapse 200])
  = [LogUpdating Price "A" "125"] /\
  priceOf "A"
    (run Helper.roundNum Scenario.loaded
       [PriceInput "A" "1"; Elapse 100; PriceInput "A" "12"; Elapse 100;
        PriceInput "A" "125"; Elapse 500])
  = Some (VNumber 125) /\
  marginOf "A"
    (run Helper.roundNum Scenario.loaded
       [PriceInput "A" "1"; Elapse 100; PriceInput "A" "12"; Elapse 100;
        PriceInput "A" "125"; Elapse 500])
  = Some 60%float /\
  priceOf "B"
    (run Helper.roundNum Scenario.loaded
       [PriceInput "A" "1"; Elapse 100; PriceInput "A" "12"; Elapse 100;
        PriceInput "A" "125"; Elapse 500])
  = Some (VNumber 20).
Proof.
  destruct (burst_commits_last_edit_of_field Helper.roundNum Scenario.loaded
              Price "A"%string "1"%string wellFormed_loaded)
    as (Hany & Hburst).
  split.
  - apply (proj1 (Hany [([Elapse 100; MarginInput "B" "50"],
                         ("A"%string, "12"%string));
                        ([SaveClick Scenario.allFulfil; Elapse 100],
                         ("A"%string, "125"%string))]
                   [Elapse 300;
                    RefreshClick (mkRefreshOutcome (Some Scenario.fetched) false);
                    Elapse 200]
                   ltac:(repeat constructor)
                   ltac:(repeat constructor)
                   ltac:(unfold quietPeriod; simpl; lia))).
  - destruct (Hburst [(100, ("A"%string, "12"%string));
                      (100, ("A"%string, "125"%string))] 500
                {| Id := "A"; SalesPrice := VNumber 100;
                   Product2 := mkProduct2 (VNumber 50) (VBool true);
                   margin := 50; readonly := VBool true |}
                ltac:(unfold withinQuiet, quietPeriod;
                      constructor; [simpl; lia|];
                      constructor; [simpl; lia|constructor])
                ltac:(unfold quietPeriod; lia)
                eq_refl eq_refl) as (Hfind & Hothers).
    cbn [input burst app lastEdit fst snd] in Hfind, Hothers.
    unfold priceOf, marginOf. rewrite Hfind.
    split; [vm_compute; reflexivity|].
    split; [vm_compute; reflexivity|].
    assert (HB : filter (hasId "B")
                   (elems (cartItems
                      (run Helper.roundNum Scenario.loaded
                         [PriceInput "A" "1"; Elapse 100; PriceInput "A" "12";
                          Elapse 100; PriceInput "A" "125"; Elapse 500])))
                 = filter (hasId "B") (elems (cartItems Scenario.loaded)))
      by (apply Hothers; discriminate).
    rewrite find_filter, HB. reflexivity.
Defined.

(** C1, as stated, fails: (A, price) and (B, price) are two pairs; the
    price edit of B, made while that of A is pending, cancels it: only
    the edit of B commits, and the price of A stays 100. *)
Lemma price_edit_of_B_cancels_that_of_A :
  ("A"%string, Price) <> ("B"%string, Price) /\
  commits Price
    (run Helper.roundNum Scenario.loaded
       [PriceInput "A" "10"; PriceInput "B" "30"; Elapse 500])
  = [LogUpdating Price "B" "30"] /\
  priceOf "A"
    (run Helper.roundNum Scenario.loaded
       [PriceInput "A" "10"; PriceInput "B" "30"; Elapse 500])
  = Some (VNumber 100) /\
  priceOf "B"
    (run Helper.roundNum Scenario.loaded
       [PriceInput "A" "10"; PriceInput "B" "30"; Elapse 500])
  = Some (VNumber 30).
Proof. split; [discriminate|]. vm_compute. repeat split. Qed.

(** C1, amended: the two fields debounce independently, whatever the
    ids.  Scheduling an edit of one field cancels no pending timer of
    the other; an edit of each field, made at the same instant, both
    commit after the quiet period.  The edits of one field share that
    field's single timer: an edit made within the quiet period of an
    earlier one of the same field replaces it, also when the ids
    differ. *)
Theorem fields_debounce_independently (roundNum : float -> Z -> float)
  (s : state) (f : field) (a va b vb : string) (gap dt : nat) :
  wellFormed s ->
  gap < quietPeriod ->
  quietPeriod <= dt ->
  pending f (step roundNum s (input (other f) b vb)) = pending f s /\
  commits f
    (run roundNum s [input f a va; input (other f) b vb; Elapse dt])
  = commits f s ++ [LogUpdating f a va] /\
  commits (other f)
    (run roundNum s [input f a va; input (other f) b vb; Elapse dt])
  = commits (other f) s ++ [LogUpdating (other f) b vb] /\
  commits f
    (run roundNum s [input f a va; Elapse gap; input f b vb; Elapse dt])
  = commits f s ++ [LogUpdating f b vb].
Proof.
  intros Hwf Hgap Hdt.
  destruct (first_edit roundNum f a va s Hwf)
    as (Hwf1 & Hp1 & Ho1 & Hclk1 & _ & Hc1).
  set (s1 := step roundNum s (input f a va)) in *.
  split; [|split; [|split]].
  - destruct (first_edit roundNum (other f) b vb s Hwf) as (_ & _ & Ho & _).
    now rewrite other_involutive in Ho.
  - destruct (first_edit roundNum (other f) b vb s1 Hwf1)
      as (_ & _ & Ho2 & Hclk2 & _ & Hc2).
    rewrite other_involutive, Hp1 in Ho2.
    change (run roundNum s [input f a va; input (other f) b vb; Elapse dt])
      with (elapse roundNum dt (step roundNum s1 (input (other f) b vb))).
    destruct (elapse_after roundNum f _ dt _ Ho2) as [_ Hc].
    + cbn [deadline]. lia.
    + rewrite Hc, Hc2, Hc1. cbn [action]. now rewrite entryOf_callbackOf.
  - destruct (first_edit roundNum (other f) b vb s1 Hwf1)
      as (_ & Hp2 & _ & Hclk2 & _ & Hc2).
    change (run roundNum s [input f a va; input (other f) b vb; Elapse dt])
      with (elapse roundNum dt (step roundNum s1 (input (other f) b vb))).
    destruct (elapse_after roundNum (other f) _ dt _ Hp2) as [_ Hc].
    + cbn [deadline]. lia.
    + rewrite Hc, Hc2, Hc1. cbn [action]. now rewrite entryOf_callbackOf.
  - change (run roundNum s [input f a va; Elapse gap; input f b vb; Elapse dt])
      with (run roundNum s1 (burst f [(gap, (b, vb))] ++ [Elapse dt])).
    destruct (burst_settles roundNum f [(gap, (b, vb))] s1 a va _ dt Hwf1 Hp1)
      as (Hc & _).
    + cbn [deadline]. now rewrite Hclk1.
    + reflexivity.
    + constructor; [exact Hgap|constructor].
    + assumption.
    + rewrite Hc, Hc1. reflexivity.
Qed.

(** An instance of [fields_debounce_independently]: the price of item A
    and the margin of item B are edited at the same instant, and both
    commit. *)
Lemma price_of_A_and_margin_of_B_both_commit :
  commits Price
    (run Helper.roundNum Scenario.loaded
       [PriceInput "A" "10"; MarginInput "B" "30"; Elapse 500])
  = [LogUpdating Price "A" "10"] /\
  commits Margin
    (run Helper.roundNum Scenario.loaded
       [PriceInput "A" "10"; MarginInput "B" "30"; Elapse 500])
  = [LogUpdating Margin "B" "30"].
Proof.
  destruct (fields_debounce_independently Helper.roundNum Scenario.loaded
              Price "A"%string "10"%string "B"%string "30"%string 0 500
              wellFormed_loaded
              ltac:(unfold quietPeriod; lia) ltac:(unfold quietPeriod; lia))
    as (_ & Hprice & Hmargin & _).
  split; [exact Hprice|exact Hmargin].
Defined.

(* ================================================================= *)
(** ** Further properties *)

(* ----------------------------------------------------------------- *)
(** *** One edit, from a state with no timer pending *)

Lemma runCallback_callbackOf (roundNum : float -> Z -> float) (f : field)
  (id value : string) (s : state) :
  runCallback roundNum (callbackOf f id value) s
  = timeoutBody roundNum f id value s.
Proof. destruct f; reflexivity. Qed.

Lemma atCommit_frame (f : field) (id value : string) (dt : nat) (s : state) :
  cartItems (atCommit f id value dt s) = cartItems s /\
  console (atCommit f id value dt s) = console s /\
  toasts (atCommit f id value dt s) = toasts s /\
  errorMsg (atCommit f id value dt s) = errorMsg s /\
  requests (atCommit f id value dt s) = requests s /\
  nextRef (atCommit f id value dt s) = nextRef s.
Proof.
  destruct (debounce_frame f (callbackOf f id value) s)
    as (_ & _ & _ & _ & Hl & Hi & Ht & He & Hr & Hn).
  unfold atCommit. cbn [cartItems console toasts errorMsg requests nextRef
                        withTimers withClock].
  repeat split; assumption.
Qed.

Lemma lone_edit_settles (roundNum : float -> Z -> float) (f : field)
  (id value : string) (dt : nat) (s : state) :
  timers s = [] -> quietPeriod <= dt ->
  run roundNum s [input f id value; Elapse dt]
  = timeoutBody roundNum f id value (atCommit f id value dt s).
Proof.
  intros Ht Hdt.
  change (run roundNum s [input f id value; Elapse dt])
    with (elapse roundNum dt (step roundNum s (input f id value))).
  rewrite step_input.
  pose proof (debounce_quiescent f (callbackOf f id value) s Ht) as Ht1.
  destruct (debounce_frame f (callbackOf f id value) s) as (Hclk & _).
  rewrite (elapse_single roundNum _ dt _ Ht1) by (cbn [deadline]; lia).
  cbn [action]. rewrite runCallback_callbackOf, Hclk. reflexivity.
Qed.

Lemma timeoutBody_console (roundNum : float -> Z -> float) (f : field)
  (id value : string) (s : state) :
  console (timeoutBody roundNum f id value s)
  = console s
    ++ LogUpdating f id value
       :: match find (hasId id) (elems (cartItems s)) with
          | Some _ => []
          | None => [WarnNotFound id]
          end.
Proof.
  unfold timeoutBody. cbn [cartItems consoleWrite withConsole].
  destruct (find (hasId id) (elems (cartItems s))); simpl.
  - reflexivity.
  - now rewrite <- app_assoc.
Qed.

Lemma timeoutBody_missing (roundNum : float -> Z -> float) (f : field)
  (id value : string) (s : state) :
  find (hasId id) (elems (cartItems s)) = None ->
  cartItems (timeoutBody roundNum f id value s) = cartItems s.
Proof.
  intro Hfind. unfold timeoutBody. cbn [cartItems consoleWrite withConsole].
  now rewrite Hfind.
Qed.

(** X1: an edit whose id is not in the collection when its quiet period
    ends is dropped: the collection is the same array with the same
    items, the console has the line of the callback and the warning,
    and no toast is shown and no error recorded. *)
Theorem edit_of_missing_id_is_dropped (roundNum : float -> Z -> float)
  (s : state) (f : field) (id value : string) (dt : nat) :
  timers s = [] ->
  find (hasId id) (elems (cartItems s)) = None ->
  quietPeriod <= dt ->
  cartItems (run roundNum s [input f id value; Elapse dt]) = cartItems s /\
  console (run roundNum s [input f id value; Elapse dt])
  = console s ++ [LogUpdating f id value; WarnNotFound id] /\
  toasts (run roundNum s [input f id value; Elapse dt]) = toasts s /\
  errorMsg (run roundNum s [input f id value; Elapse dt]) = errorMsg s.
Proof.
  intros Ht Hfind Hdt.
  rewrite (lone_edit_settles roundNum f id value dt s Ht Hdt).
  destruct (atCommit_frame f id value dt s) as (Hi & Hl & Hto & He & _).
  destruct (timeoutBody_frame roundNum f id value (atCommit f id value dt s))
    as (_ & _ & _ & _ & _ & Hto' & He' & _).
  assert (Hfind' : find (hasId id) (elems (cartItems (atCommit f id value dt s)))
                   = None) by now rewrite Hi.
  repeat split.
  - now rewrite timeoutBody_missing, Hi.
  - now rewrite timeoutBody_console, Hfind', Hl.
  - now rewrite Hto', Hto.
  - now rewrite He', He.
Qed.

(** An instance of [edit_of_missing_id_is_dropped]: a margin edit for
    an id ["Z"] that the loaded cart does not hold. *)
Lemma edit_of_Z_is_dropped :
  cartItems
    (run Helper.roundNum Scenario.loaded [MarginInput "Z" "40"; Elapse 500])
  = cartItems Scenario.loaded /\
  console
    (run Helper.roundNum Scenario.loaded [MarginInput "Z" "40"; Elapse 500])
  = [LogUpdating Margin "Z" "40"; WarnNotFound "Z"].
Proof.
  destruct (edit_of_missing_id_is_dropped Helper.roundNum Scenario.loaded
              Margin "Z"%string "40"%string 500)
    as (Hitems & Hconsole & _).
  - reflexivity.
  - reflexivity.
  - unfold quietPeriod. lia.
  - split; [exact Hitems|exact Hconsole].
Defined.

Lemma lone_edit_waits (roundNum : float -> Z -> float)
  (s : state) (f : field) (id value : string) (gap : nat) :
  timers s = [] ->
  gap < quietPeriod ->
  cartItems (run roundNum s [input f id value; Elapse gap]) = cartItems s /\
  console (run roundNum s [input f id value; Elapse gap]) = console s /\
  requests (run roundNum s [input f id value; Elapse gap]) = requests s /\
  timers (run roundNum s [input f id value; Elapse gap])
  = [mkTimer (nextHandle s) (clock s + quietPeriod) (callbackOf f id value)].
Proof.
  intros Ht Hgap.
  change (run roundNum s [input f id value; Elapse gap])
    with (elapse roundNum gap (step roundNum s (input f id value))).
  rewrite step_input.
  pose proof (debounce_quiescent f (callbackOf f id value) s Ht) as Ht1.
  destruct (debounce_frame f (callbackOf f id value) s)
    as (Hclk & _ & _ & _ & Hl & Hi & _ & _ & Hr & _).
  assert (Hdue : due (clock (debounce f (callbackOf f id value) s) + gap)
                   (mkTimer (nextHandle s) (clock s + quietPeriod)
                      (callbackOf f id value)) = false).
  { unfold due. cbn [deadline]. apply Nat.leb_gt. lia. }
  rewrite elapse_eq, Ht1. cbn [filter]. rewrite Hdue. cbn [negb].
  unfold fire.
  cbn [fold_left cartItems console requests timers withTimers withClock].
  repeat split; assumption.
Qed.

(** X2: an edit changes nothing before its quiet period has passed:
    less than 500 ms after an edit made with no timer pending, the
    collection is the same array with the same items, no timer callback
    has run, and the timer of the edit is the one pending timer, due
    500 ms after the edit. *)
Theorem edit_waits_for_the_quiet_period (roundNum : float -> Z -> float)
  (s : state) (f : field) (id value : string) (gap : nat) :
  timers s = [] ->
  gap < quietPeriod ->
  cartItems (run roundNum s [input f id value; Elapse gap]) = cartItems s /\
  (forall g : field,
     commits g (run roundNum s [input f id value; Elapse gap]) = commits g s) /\
  timers (run roundNum s [input f id value; Elapse gap])
  = [mkTimer (nextHandle s) (clock s + quietPeriod) (callbackOf f id value)].
Proof.
  intros Ht Hgap.
  destruct (lone_edit_waits roundNum s f id value gap Ht Hgap)
    as (Hi & Hl & _ & Htimers).
  split; [assumption|]. split; [|assumption].
  intro g. unfold commits. now rewrite Hl.
Qed.

(** An instance of [edit_waits_for_the_quiet_period]: 499 ms after a
    price edit of ["10"] on item A its price is still 100, no price has
    been committed, and the timer of the edit is pending, due at 500
    ms. *)
Lemma price_of_A_after_499_ms :
  priceOf "A"
    (run Helper.roundNum Scenario.loaded [PriceInput "A" "10"; Elapse 499])
  = Some (VNumber 100) /\
  commits Price
    (run Helper.roundNum Scenario.loaded [PriceInput "A" "10"; Elapse 499])
  = [] /\
  timers
    (run Helper.roundNum Scenario.loaded [PriceInput "A" "10"; Elapse 499])
  = [mkTimer 1 500 (PriceTimeout "A" "10")].
Proof.
  destruct (edit_waits_for_the_quiet_period Helper.roundNum Scenario.loaded
              Price "A"%string "10"%string 499 eq_refl
              ltac:(unfold quietPeriod; lia))
    as (Hitems & Hcommits & Htimers).
  cbn [input] in Hitems, Hcommits, Htimers.
  split; [unfold priceOf; rewrite Hitems; reflexivity|].
  split; [rewrite Hcommits; reflexivity|].
  rewrite Htimers. reflexivity.
Defined.

(** X3: a margin edit of an item of the collection, with no other timer
    pending, commits after the quiet period: the margin is the parsed
    value as entered, not recomputed, the price is
    [roundNum (cost / (1 - margin / 100), 2)], and the item's id,
    product and read-only flag are as before. *)
Theorem margin_edit_commits (roundNum : float -> Z -> float)
  (s : state) (id value : string) (item : cartItem) (dt : nat) :
  timers s = [] ->
  find (hasId id) (elems (cartItems s)) = Some item ->
  quietPeriod <= dt ->
  find (hasId id)
    (elems (cartItems (run roundNum s [MarginInput id value; Elapse dt])))
  = Some {| Id := Id item;
            SalesPrice :=
              VNumber
                (roundNum
                   (ToNumber (Product_Cost__c (Product2 item))
                    / (1 - parseFloat value / 100))%float 2%Z);
            Product2 := Product2 item;
            margin := parseFloat value;
            readonly := readonly item |}.
Proof.
  intros Ht Hfind Hdt.
  change (MarginInput id value) with (input Margin id value).
  rewrite (lone_edit_settles roundNum Margin id value dt s Ht Hdt).
  destruct (atCommit_frame Margin id value dt s) as (Hi & _).
  rewrite timeoutBody_elems, Hi.
  apply (find_mutateFound id (setMargin roundNum value) _ item);
    [reflexivity|assumption].
Qed.

(** An instance of [margin_edit_commits]: a margin of ["50"] on item B,
    which costs 5: the price becomes 10. *)
Lemma margin_50_on_B :
  priceOf "B"
    (run Helper.roundNum Scenario.loaded [MarginInput "B" "50"; Elapse 500])
  = Some (VNumber 10) /\
  marginOf "B"
    (run Helper.roundNum Scenario.loaded [MarginInput "B" "50"; Elapse 500])
  = Some 50%float.
Proof.
  pose proof (margin_edit_commits Helper.roundNum Scenario.loaded
                "B"%string "50"%string
                {| Id := "B"; SalesPrice := VNumber 20;
                   Product2 := mkProduct2 (VNumber 5) (VBool false);
                   margin := 75; readonly := VBool false |} 500
                eq_refl eq_refl ltac:(unfold quietPeriod; lia)) as Hfind.
  unfold priceOf, marginOf. rewrite Hfind. split; vm_compute; reflexivity.
Defined.

(** X4: a commit changes one item and nothing else of the collection:
    the ids are the same, in the same order; every item with another id
    is as it was; and of the items with the id of the edit only the
    first is changed. *)
Theorem edit_changes_one_item (roundNum : float -> Z -> float)
  (s : state) (f : field) (id value : string) (dt : nat) :
  timers s = [] ->
  quietPeriod <= dt ->
  map Id (elems (cartItems (run roundNum s [input f id value; Elapse dt])))
  = map Id (elems (cartItems s)) /\
  (forall id',
     id' <> id ->
     filter (hasId id')
       (elems (cartItems (run roundNum s [input f id value; Elapse dt])))
     = filter (hasId id') (elems (cartItems s))) /\
  (forall before x after,
     elems (cartItems s) = before ++ x :: after ->
     find (hasId id) before = None ->
     hasId id x = true ->
     elems (cartItems (run roundNum s [input f id value; Elapse dt]))
     = before ++ commit roundNum f value x :: after).
Proof.
  intros Ht Hdt.
  rewrite (lone_edit_settles roundNum f id value dt s Ht Hdt).
  destruct (atCommit_frame f id value dt s) as (Hi & _).
  rewrite timeoutBody_elems, Hi.
  split; [|split].
  - apply mutateFound_ids, commit_keeps_Id.
  - intros id' Hne. apply mutateFound_others; [apply commit_keeps_Id|exact Hne].
  - intros before x after -> Hnone Hx. now apply mutateFound_split.
Qed.

(** An instance of [edit_changes_one_item]: a price edit of item B
    leaves item A, the first of the loaded cart, as it was. *)
Lemma price_edit_of_B_leaves_A :
  elems (cartItems
           (run Helper.roundNum Scenario.loaded
              [PriceInput "B" "30"; Elapse 500]))
  = [ {| Id := "A"; SalesPrice := VNumber 100;
         Product2 := mkProduct2 (VNumber 50) (VBool true);
         margin := 50; readonly := VBool true |} ]
    ++ setPrice Helper.roundNum "30"
         {| Id := "B"; SalesPrice := VNumber 20;
            Product2 := mkProduct2 (VNumber 5) (VBool false);
            margin := 75; readonly := VBool false |}
       :: [].
Proof.
  apply (proj2 (proj2 (edit_changes_one_item Helper.roundNum Scenario.loaded
                         Price "B"%string "30"%string 500 eq_refl
                         ltac:(unfold quietPeriod; lia))));
    reflexivity.
Defined.

(* ----------------------------------------------------------------- *)
(** *** An edit of each field *)

(** With no timer pending, an edit of [f] and then one of the other
    field leave two timers, that of [f] first. *)
Lemma two_fields_timers (f : field) (a va b vb : string) (s : state) :
  wellFormed s ->
  timers s = [] ->
  timers (debounce (other f) (callbackOf (other f) b vb)
            (debounce f (callbackOf f a va) s))
  = [mkTimer (nextHandle s) (clock s + quietPeriod) (callbackOf f a va);
     mkTimer (Pos.succ (nextHandle s)) (clock s + quietPeriod)
       (callbackOf (other f) b vb)].
Proof.
  intros Hwf Ht.
  pose proof (debounce_quiescent f (callbackOf f a va) s Ht) as Ht1.
  destruct (debounce_frame f (callbackOf f a va) s)
    as (Hclk & Hnext & _ & Hother & _).
  set (s1 := debounce f (callbackOf f a va) s) in *.
  rewrite debounce_timers, Hclk, Hnext.
  assert (Hclear : afterClear (other f) s1 = timers s1).
  { unfold afterClear. rewrite Hother.
    destruct (slot (other f) s) as [h|] eqn:Hslot; [|reflexivity].
    rewrite Ht1. cbn [filter handle].
    assert (Hlt : (h < nextHandle s)%positive)
      by exact (wf_fresh Hwf (other f) h Hslot).
    assert (Hne : Pos.eqb (nextHandle s) h = false)
      by (apply Pos.eqb_neq; lia).
    now rewrite Hne. }
  rewrite Hclear, Ht1. cbn [insertTimer deadline].
  now rewrite Nat.leb_refl.
Qed.

(** With no timer pending, an edit of [f] and then one of the other
    field, both of one item: when the quiet period ends the callback of
    [f] runs, then that of the other field, on what the first one
    stored. *)
Lemma both_fields_settle (roundNum : float -> Z -> float)
  (s : state) (f : field) (id va vb : string) (item : cartItem) (dt : nat) :
  wellFormed s ->
  timers s = [] ->
  find (hasId id) (elems (cartItems s)) = Some item ->
  quietPeriod <= dt ->
  find (hasId id)
    (elems (cartItems
              (run roundNum s
                 [input f id va; input (other f) id vb; Elapse dt])))
  = Some (commit roundNum (other f) vb (commit roundNum f va item)) /\
  (forall g : field,
     commits g
       (run roundNum s [input f id va; input (other f) id vb; Elapse dt])
     = commits g s
       ++ filter (isUpdating g)
            [LogUpdating f id va; LogUpdating (other f) id vb]).
Proof.
  intros Hwf Ht Hfind Hdt.
  change (run roundNum s [input f id va; input (other f) id vb; Elapse dt])
    with (elapse roundNum dt
            (step roundNum (step roundNum s (input f id va))
               (input (other f) id vb))).
  rewrite !step_input.
  pose proof (two_fields_timers f id va id vb s Hwf Ht) as Ht2.
  destruct (debounce_frame f (callbackOf f id va) s)
    as (Hclk1 & _ & _ & _ & Hl1 & Hi1 & _).
  destruct (debounce_frame (other f) (callbackOf (other f) id vb)
              (debounce f (callbackOf f id va) s))
    as (Hclk2 & _ & _ & _ & Hl2 & Hi2 & _).
  set (s2 := debounce (other f) (callbackOf (other f) id vb)
               (debounce f (callbackOf f id va) s)) in *.
  assert (Hdue : forall cb h,
             due (clock s2 + dt) (mkTimer h (clock s + quietPeriod) cb) = true).
  { intros cb h. unfold due. cbn [deadline]. apply Nat.leb_le. lia. }
  rewrite elapse_eq, Ht2. cbn [filter]. rewrite !Hdue. cbn [negb filter].
  rewrite !fire_cons. cbn [action fire fold_left].
  rewrite !runCallback_callbackOf.
  set (s3 := withTimers [] (withClock (clock s2 + dt) s2)).
  assert (Hi3 : cartItems s3 = cartItems s) by (now rewrite <- Hi1, <- Hi2).
  assert (Hl3 : console s3 = console s) by (now rewrite <- Hl1, <- Hl2).
  assert (Hfind1 : find (hasId id)
                     (elems (cartItems (timeoutBody roundNum f id va s3)))
                   = Some (commit roundNum f va item)).
  { rewrite timeoutBody_elems, Hi3.
    apply find_mutateFound; [apply commit_keeps_Id|assumption]. }
  split.
  - rewrite timeoutBody_elems.
    apply find_mutateFound; [apply commit_keeps_Id|assumption].
  - intro g. unfold commits.
    rewrite timeoutBody_console, Hfind1, timeoutBody_console, Hi3, Hfind, Hl3.
    rewrite <- app_assoc, filter_app. reflexivity.
Qed.

(** X5: an edit of each field of one item, made one after the other
    with no time between and no other timer pending: when the quiet
    period ends both callbacks run, each once, and the edit made last
    decides both fields of the item.  A price and then a margin: the
    margin is the parsed margin and the price is
    [roundNum (cost / (1 - margin / 100), 2)]; nothing of the typed
    price is left.  A margin and then a price: the price is the parsed
    price and the margin is recomputed from it; nothing of the typed
    margin is left. *)
Theorem edits_of_both_fields_compose (roundNum : float -> Z -> float)
  (s : state) (id va vb : string) (item : cartItem) (dt : nat) :
  wellFormed s ->
  timers s = [] ->
  find (hasId id) (elems (cartItems s)) = Some item ->
  quietPeriod <= dt ->
  find (hasId id)
    (elems (cartItems
              (run roundNum s
                 [PriceInput id va; MarginInput id vb; Elapse dt])))
  = Some {| Id := Id item;
            SalesPrice :=
              VNumber
                (roundNum
                   (ToNumber (Product_Cost__c (Product2 item))
                    / (1 - parseFloat vb / 100))%float 2%Z);
            Product2 := Product2 item;
            margin := parseFloat vb;
            readonly := readonly item |} /\
  find (hasId id)
    (elems (cartItems
              (run roundNum s
                 [MarginInput id va; PriceInput id vb; Elapse dt])))
  = Some {| Id := Id item;
            SalesPrice := VNumber (parseFloat vb);
            Product2 := Product2 item;
            margin :=
              calculateMargin roundNum (VNumber (parseFloat vb))
                (Product_Cost__c (Product2 item));
            readonly := readonly item |} /\
  commits Price
    (run roundNum s [PriceInput id va; MarginInput id vb; Elapse dt])
  = commits Price s ++ [LogUpdating Price id va] /\
  commits Margin
    (run roundNum s [PriceInput id va; MarginInput id vb; Elapse dt])
  = commits Margin s ++ [LogUpdating Margin id vb] /\
  commits Margin
    (run roundNum s [MarginInput id va; PriceInput id vb; Elapse dt])
  = commits Margin s ++ [LogUpdating Margin id va] /\
  commits Price
    (run roundNum s [MarginInput id va; PriceInput id vb; Elapse dt])
  = commits Price s ++ [LogUpdating Price id vb].
Proof.
  intros Hwf Ht Hfind Hdt.
  destruct (both_fields_settle roundNum s Price id va vb item dt
              Hwf Ht Hfind Hdt) as (Hpm & Hcpm).
  destruct (both_fields_settle roundNum s Margin id va vb item dt
              Hwf Ht Hfind Hdt) as (Hmp & Hcmp).
  cbn [input other] in Hpm, Hcpm, Hmp, Hcmp.
  split; [exact Hpm|]. split; [exact Hmp|].
  split; [exact (Hcpm Price)|]. split; [exact (Hcpm Margin)|].
  split; [exact (Hcmp Margin)|exact (Hcmp Price)].
Qed.

(** An instance of [edits_of_both_fields_compose], on item A, which
    costs 50 and has the price 100 and the margin 50.  A price of
    ["80"] and then a margin of ["20"]: the price is 62.5 and the margin
    20.  A margin of ["20"] and then a price of ["80"]: the price is 80
    and the margin 37.5. *)
Lemma price_then_margin_on_A :
  priceOf "A"
    (run Helper.roundNum Scenario.loaded
       [PriceInput "A" "80"; MarginInput "A" "20"; Elapse 500])
  = Some (VNumber 62.5) /\
  marginOf "A"
    (run Helper.roundNum Scenario.loaded
       [PriceInput "A" "80"; MarginInput "A" "20"; Elapse 500])
  = Some 20%float /\
  priceOf "A"
    (run Helper.roundNum Scenario.loaded
       [MarginInput "A" "20"; PriceInput "A" "80"; Elapse 500])
  = Some (VNumber 80) /\
  marginOf "A"
    (run Helper.roundNum Scenario.loaded
       [MarginInput "A" "20"; PriceInput "A" "80"; Elapse 500])
  = Some 37.5%float.
Proof.
  destruct (edits_of_both_fields_compose Helper.roundNum Scenario.loaded
              "A"%string "80"%string "20"%string
              {| Id := "A"; SalesPrice := VNumber 100;
                 Product2 := mkProduct2 (VNumber 50) (VBool true);
                 margin := 50; readonly := VBool true |} 500
              wellFormed_loaded eq_refl eq_refl
              ltac:(unfold quietPeriod; lia)) as (Hpm & _).
  destruct (edits_of_both_fields_compose Helper.roundNum Scenario.loaded
              "A"%string "20"%string "80"%string
              {| Id := "A"; SalesPrice := VNumber 100;
                 Product2 := mkProduct2 (VNumber 50) (VBool true);
                 margin := 50; readonly := VBool true |} 500
              wellFormed_loaded eq_refl eq_refl
              ltac:(unfold quietPeriod; lia)) as (_ & Hmp & _).
  unfold priceOf, marginOf. rewrite Hpm, Hmp.
  repeat split; vm_compute; reflexivity.
Defined.

(* ----------------------------------------------------------------- *)
(** *** Saving and pending edits *)

(** X6: [saveChanges] sends the prices the collection holds when it is
    called.  A save made before an edit's quiet period has ended sends
    the prices of before the edit; a save made after a price edit has
    settled sends, for the edited item, its id with the parsed value. *)
Theorem save_sends_the_settled_prices (roundNum : float -> Z -> float)
  (s : state) (api : writeApi) (id value : string) :
  timers s = [] ->
  (forall (f : field) (gap : nat),
     gap < quietPeriod ->
     requests
       (run roundNum s [input f id value; Elapse gap; SaveClick api])
     = requests s ++ map updateOf (elems (cartItems s))) /\
  (forall (item : cartItem) (dt : nat),
     find (hasId id) (elems (cartItems s)) = Some item ->
     quietPeriod <= dt ->
     In {| fields := [("Id"%string, FString (Id item));
                      ("SalesPrice"%string,
                       FValue (VNumber (parseFloat value)))] |}
       (requests
          (run roundNum s [PriceInput id value; Elapse dt; SaveClick api]))).
Proof.
  intro Ht. split.
  - intros f gap Hgap.
    change (run roundNum s [input f id value; Elapse gap; SaveClick api])
      with (saveChanges api (run roundNum s [input f id value; Elapse gap])).
    destruct (lone_edit_waits roundNum s f id value gap Ht Hgap)
      as (Hi & _ & Hr & _).
    now rewrite saveChanges_requests_eq, Hi, Hr.
  - intros item dt Hfind Hdt.
    change (run roundNum s [PriceInput id value; Elapse dt; SaveClick api])
      with (saveChanges api
              (run roundNum s [input Price id value; Elapse dt])).
    rewrite saveChanges_requests_eq. apply in_or_app. right.
    rewrite (lone_edit_settles roundNum Price id value dt s Ht Hdt).
    destruct (atCommit_frame Price id value dt s) as (Hi & _).
    rewrite timeoutBody_elems, Hi.
    assert (Hf : find (hasId id)
                   (mutateFound id (setPrice roundNum value)
                      (elems (cartItems s)))
                 = Some (setPrice roundNum value item))
      by (apply find_mutateFound; [reflexivity|assumption]).
    apply find_some in Hf as [Hin _].
    apply (in_map updateOf) in Hin. exact Hin.
Qed.

(** An instance of [save_sends_the_settled_prices]: a save 100 ms after
    a price edit of item A sends the two loaded prices. *)
Lemma save_100_ms_after_an_edit :
  requests
    (run Helper.roundNum Scenario.loaded
       [PriceInput "A" "10"; Elapse 100; SaveClick Scenario.allFulfil])
  = map updateOf (elems (cartItems Scenario.loaded)).
Proof.
  apply (proj1 (save_sends_the_settled_prices Helper.roundNum Scenario.loaded
                  Scenario.allFulfil "A"%string "10"%string eq_refl)
           Price 100).
  unfold quietPeriod. lia.
Defined.

(* ----------------------------------------------------------------- *)
(** *** Invariants of every history *)

Lemma length_filter_le1 {A : Type} (p : A -> bool) (l : list A) :
  List.length l <= 1 -> List.length (filter p l) <= 1.
Proof.
  destruct l as [|x [|y l]]; simpl; intro H; try lia.
  destruct (p x); simpl; lia.
Qed.

Lemma pending_bound_step (roundNum : float -> Z -> float)
  (s : state) (e : event) :
  wellFormed s ->
  (forall f, List.length (pending f s) <= 1) ->
  forall f, List.length (pending f (step roundNum s e)) <= 1.
Proof.
  intros Hwf Hb f.
  assert (Hin : forall g id v,
            List.length (pending f (debounce g (callbackOf g id v) s)) <= 1).
  { intros g id v. destruct (field_cases g f) as [->| ->].
    - rewrite debounce_pending; [simpl; lia|assumption|apply fieldOf_callbackOf].
    - rewrite debounce_pending_other;
        [apply Hb|assumption|apply fieldOf_callbackOf]. }
  destruct e as [r|id v|id v|api|o|dt].
  - unfold pending. cbn [step].
    destruct (wiredCart_frame roundNum r s) as (-> & _). apply Hb.
  - apply (Hin Price).
  - apply (Hin Margin).
  - unfold pending. cbn [step].
    destruct (saveChanges_frame api s) as (-> & _). apply Hb.
  - unfold pending. cbn [step].
    destruct (refreshCartItems_frame roundNum o s) as (-> & _). apply Hb.
  - cbn [step]. rewrite elapse_pending. apply length_filter_le1, Hb.
Qed.

Lemma pending_bound_run (roundNum : float -> Z -> float) (es : list event) :
  forall s,
    wellFormed s ->
    (forall f, List.length (pending f s) <= 1) ->
    forall f, List.length (pending f (run roundNum s es)) <= 1.
Proof.
  induction es as [|e es IH]; intros s Hwf Hb f; simpl.
  - apply Hb.
  - apply IH.
    + now apply wellFormed_step.
    + now apply pending_bound_step.
Qed.

(** X7: whatever the component has been through since it was
    constructed, at most one edit of the price and at most one of the
    margin is pending. *)
Theorem at_most_one_pending_edit (roundNum : float -> Z -> float)
  (es : list event) (f : field) :
  List.length (pending f (run roundNum initial es)) <= 1.
Proof.
  apply pending_bound_run.
  - apply wellFormed_initial.
  - intro g. simpl. lia.
Qed.

Lemma mapItems_loadedFrom (roundNum : float -> Z -> float)
  (d : list rawItem) :
  forall items,
    mapItems roundNum d = Some items ->
    Forall2 (loadedFrom roundNum) d items.
Proof.
  induction d as [|x d IH]; simpl; intros items H.
  - injection H as <-. constructor.
  - unfold mapItem in H. destruct (rawProduct2 x) as [p|] eqn:Hp; [|discriminate].
    destruct (mapItems roundNum d) as [rest|]; [|discriminate].
    injection H as <-. constructor.
    + unfold loadedFrom, inStep. cbn. repeat split. exact Hp.
    + now apply IH.
Qed.

Lemma Forall2_right {A B : Type} (R : A -> B -> Prop) (P : B -> Prop)
  (l : list A) (l' : list B) :
  (forall a b, R a b -> P b) -> Forall2 R l l' -> Forall P l'.
Proof.
  intros HRP H. induction H; constructor; eauto.
Qed.

(** X8: when data is supplied in which every item carries its product,
    the collection holds one item per supplied item, in the same order,
    each with the id, the price and the product of the supplied item,
    the read-only flag copied from the product's agency-pricing flag,
    and the margin of its price and cost. *)
Theorem wiredCart_maps_the_items (roundNum : float -> Z -> float)
  (r : wireResult) (d : list rawItem) (s : state) :
  data r = Some d ->
  existsb lacksProduct d = false ->
  Forall2 (loadedFrom roundNum) d
    (elems (cartItems (snd (wiredCart roundNum r s)))) /\
  ref (cartItems (snd (wiredCart roundNum r s))) = nextRef s.
Proof.
  intros Hd Hall.
  assert (Hprod : Forall (fun item => rawProduct2 item <> None) d).
  { apply Forall_forall. intros x Hx Hnone.
    assert (existsb lacksProduct d = true) as E
        by (apply existsb_exists; exists x; unfold lacksProduct;
            now rewrite Hnone).
    congruence. }
  destruct (mapItems_total roundNum d Hprod) as (items & Hitems & _).
  unfold wiredCart. rewrite Hd, Hitems. cbn.
  split; [now apply mapItems_loadedFrom|reflexivity].
Qed.

(** An instance of [wiredCart_maps_the_items]: the two fetched items. *)
Lemma wiredCart_maps_the_fetched_items :
  Forall2 (loadedFrom Helper.roundNum) [Scenario.itemA; Scenario.itemB]
    (elems (cartItems (snd (wiredCart Helper.roundNum Scenario.fetched initial)))).
Proof.
  apply (proj1 (wiredCart_maps_the_items Helper.roundNum Scenario.fetched
                  [Scenario.itemA; Scenario.itemB] initial eq_refl eq_refl)).
Defined.

Lemma mapItems_none (roundNum : float -> Z -> float) (d : list rawItem) :
  existsb lacksProduct d = true -> mapItems roundNum d = None.
Proof.
  induction d as [|x d IH]; simpl; [discriminate|].
  unfold lacksProduct at 1, mapItem.
  destruct (rawProduct2 x); simpl; [|reflexivity].
  intro H. now rewrite (IH H).
Qed.

(** X9: loading is all or nothing.  When one supplied item has no
    product, the wired function throws and loads none of the items: the
    collection and the recorded error are as before; only the wire
    result is kept. *)
Theorem wiredCart_loads_all_or_nothing (roundNum : float -> Z -> float)
  (r : wireResult) (d : list rawItem) (s : state) :
  data r = Some d ->
  existsb lacksProduct d = true ->
  fst (wiredCart roundNum r s) = Throws /\
  cartItems (snd (wiredCart roundNum r s)) = cartItems s /\
  errorMsg (snd (wiredCart roundNum r s)) = errorMsg s /\
  wiredCartResult (snd (wiredCart roundNum r s)) = Some r.
Proof.
  intros Hd Hex. unfold wiredCart.
  rewrite Hd, (mapItems_none roundNum d Hex). cbn. repeat split.
Qed.

(** An instance of [wiredCart_loads_all_or_nothing]: item A, and an
    item without product, supplied to the loaded component. *)
Lemma wiredCart_with_a_productless_item :
  fst (wiredCart Helper.roundNum
         (mkWireResult
            (Some [Scenario.itemA; mkRawItem "C" (VNumber 1) None]) None)
         Scenario.loaded) = Throws /\
  cartItems
    (snd (wiredCart Helper.roundNum
            (mkWireResult
               (Some [Scenario.itemA; mkRawItem "C" (VNumber 1) None]) None)
            Scenario.loaded))
  = cartItems Scenario.loaded.
Proof.
  destruct (wiredCart_loads_all_or_nothing Helper.roundNum
              (mkWireResult
                 (Some [Scenario.itemA; mkRawItem "C" (VNumber 1) None]) None)
              [Scenario.itemA; mkRawItem "C" (VNumber 1) None]
              Scenario.loaded eq_refl eq_refl) as (Hthrow & Hitems & _).
  split; [exact Hthrow|exact Hitems].
Defined.

(* ----------------------------------------------------------------- *)
(** *** Margins in step with prices *)

Lemma mutateFound_Forall (P : cartItem -> Prop) (id : string)
  (g : cartItem -> cartItem) (l : list cartItem) :
  (forall x, P (g x)) -> Forall P l -> Forall P (mutateFound id g l).
Proof.
  intros Hg H. induction H as [|x l Hx Hl IH]; simpl; [constructor|].
  destruct (hasId id x); constructor; auto.
Qed.

Lemma fire_inStep (roundNum : float -> Z -> float) (l : list timer) :
  onlyPriceTimers l ->
  forall s,
    Forall (inStep roundNum) (elems (cartItems s)) ->
    Forall (inStep roundNum) (elems (cartItems (fire roundNum l s))).
Proof.
  induction 1 as [|t l Ht Hl IH]; intros s Hs; [exact Hs|].
  rewrite fire_cons. apply IH.
  destruct (action t) as [id v|id v]; [|discriminate].
  cbn [runCallback]. rewrite timeoutBody_elems.
  apply mutateFound_Forall; [|exact Hs].
  intro x. reflexivity.
Qed.

Lemma inStep_step (roundNum : float -> Z -> float) (s : state) (e : event) :
  isMarginInput e = false ->
  Forall (inStep roundNum) (elems (cartItems s)) ->
  onlyPriceTimers (timers s) ->
  Forall (inStep roundNum) (elems (cartItems (step roundNum s e))) /\
  onlyPriceTimers (timers (step roundNum s e)).
Proof.
  intros He Hs Ht.
  assert (Hwire : forall r,
            Forall (inStep roundNum)
              (elems (cartItems (snd (wiredCart roundNum r s))))).
  { intro r. unfold wiredCart.
    destruct (data r) as [d|].
    - destruct (mapItems roundNum d) as [items|] eqn:Hitems; cbn.
      + apply (Forall2_right (loadedFrom roundNum) (inStep roundNum) d items).
        * intros a b H. apply H.
        * now apply mapItems_loadedFrom.
      + exact Hs.
    - destruct (error r); exact Hs. }
  destruct e as [r|id v|id v|api|o|dt]; try discriminate; cbn [step].
  - split; [apply Hwire|].
    destruct (wiredCart_frame roundNum r s) as (-> & _). exact Ht.
  - unfold updatePrice.
    destruct (debounce_frame Price (PriceTimeout id v) s)
      as (_ & _ & _ & _ & _ & -> & _).
    split; [exact Hs|].
    rewrite debounce_timers. apply Forall_forall. intros t Hin.
    apply in_insertTimer in Hin as [->|Hin]; [reflexivity|].
    apply in_afterClear in Hin as [Hin _].
    unfold onlyPriceTimers in Ht. rewrite Forall_forall in Ht. now apply Ht.
  - destruct (saveChanges_frame api s) as (-> & _).
    split; [|exact Ht].
    unfold saveChanges. destruct (PromiseAll _); exact Hs.
  - destruct (refreshCartItems_frame roundNum o s) as (-> & _).
    split; [|exact Ht].
    unfold refreshCartItems.
    destruct (provisioned o) as [r|]; destruct (refreshRejected o);
      cbn; solve [apply Hwire | exact Hs].
  - split.
    + rewrite elapse_eq. apply fire_inStep.
      * unfold onlyPriceTimers in *. rewrite Forall_forall in *.
        intros t Hin. apply filter_In in Hin as [Hin _]. now apply Ht.
      * exact Hs.
    + rewrite elapse_timers.
      unfold onlyPriceTimers in *. rewrite Forall_forall in *.
      intros t Hin. apply filter_In in Hin as [Hin _]. now apply Ht.
Qed.

(** X10: as long as no margin is edited, every item of the collection
    has the margin that [calculateMargin] gives for its price and cost,
    through every load, price edit, commit, save and refresh. *)
Theorem margins_follow_prices (roundNum : float -> Z -> float)
  (es : list event) :
  existsb isMarginInput es = false ->
  Forall (inStep roundNum) (elems (cartItems (run roundNum initial es))).
Proof.
  intro Hes.
  assert (H : forall s,
            Forall (inStep roundNum) (elems (cartItems s)) ->
            onlyPriceTimers (timers s) ->
            Forall (inStep roundNum) (elems (cartItems (run roundNum s es)))).
  { induction es as [|e es IH]; intros s Hs Ht; [exact Hs|].
    cbn [existsb] in Hes. apply orb_false_iff in Hes as [He Hes].
    destruct (inStep_step roundNum s e He Hs Ht) as [Hs' Ht'].
    cbn [run fold_left]. now apply IH. }
  apply H; constructor.
Qed.

(** An instance of [margins_follow_prices]: a load, a price edit of
    item A that settles, and a save. *)
Lemma margins_follow_prices_on_A :
  Forall (inStep Helper.roundNum)
    (elems (cartItems
              (run Helper.roundNum initial
                 [Wire Scenario.fetched; PriceInput "A" "80"; Elapse 500;
                  SaveClick Scenario.allFulfil]))).
Proof.
  apply (margins_follow_prices Helper.roundNum
           [Wire Scenario.fetched; PriceInput "A" "80"; Elapse 500;
            SaveClick Scenario.allFulfil] eq_refl).
Defined.

(* ----------------------------------------------------------------- *)
(** *** Toasts *)

Lemma fire_toasts (roundNum : float -> Z -> float) (l : list timer)
  (s : state) :
  toasts (fire roundNum l s) = toasts s.
Proof.
  revert s; induction l as [|t l IH]; intro s; [reflexivity|].
  rewrite fire_cons, IH.
  now destruct (runCallback_frame roundNum (action t) s)
    as (_ & _ & _ & _ & _ & -> & _).
Qed.

(** What a step adds to the toasts: nothing, or one known toast after
    a click. *)
Lemma step_toasts (roundNum : float -> Z -> float) (s : state) (e : event) :
  toasts (step roundNum s e) = toasts s \/
  exists t, isClick e = true /\ knownToast t /\
            toasts (step roundNum s e) = toasts s ++ [t].
Proof.
  destruct e as [r|id v|id v|api|o|dt]; cbn [step].
  - left. now destruct (wiredCart_frame roundNum r s)
      as (_ & _ & _ & _ & _ & _ & ->).
  - left. unfold updatePrice.
    now destruct (debounce_frame Price (PriceTimeout id v) s)
      as (_ & _ & _ & _ & _ & _ & -> & _).
  - left. unfold updateMargin.
    now destruct (debounce_frame Margin (MarginTimeout id v) s)
      as (_ & _ & _ & _ & _ & _ & -> & _).
  - unfold saveChanges. destruct (PromiseAll _); cbn.
    + right. eexists. split; [reflexivity|]. split; [|reflexivity].
      left. reflexivity.
    + right. eexists. split; [reflexivity|]. split; [|reflexivity].
      right. left. reflexivity.
    + now left.
  - unfold refreshCartItems.
    assert (Hw : toasts match provisioned o with
                        | Some r => snd (wiredCart roundNum r s)
                        | None => s
                        end = toasts s).
    { destruct (provisioned o) as [r|]; [|reflexivity].
      now destruct (wiredCart_frame roundNum r s)
        as (_ & _ & _ & _ & _ & _ & ->). }
    destruct (refreshRejected o).
    + right. eexists. split; [reflexivity|]. split.
      * right. right. reflexivity.
      * unfold showErrorToast, dispatchToast. cbn. now rewrite Hw.
    + now left.
  - left. rewrite elapse_eq, fire_toasts. reflexivity.
Qed.

(** X11: the component shows a toast only after a save or a refresh, at
    most one for each, and only one of three: the success of a save,
    the error of a save, the error of a refresh.  Edits, commits and
    loads show none. *)
Theorem toasts_come_from_clicks (roundNum : float -> Z -> float)
  (es : list event) :
  Forall knownToast (toasts (run roundNum initial es)) /\
  List.length (toasts (run roundNum initial es))
  <= List.length (filter isClick es).
Proof.
  assert (H : forall s,
            Forall knownToast (toasts s) ->
            Forall knownToast (toasts (run roundNum s es)) /\
            List.length (toasts (run roundNum s es))
            <= List.length (toasts s) + List.length (filter isClick es)).
  { induction es as [|e es IH]; intros s Hs.
    - split; [exact Hs|cbn; lia].
    - change (run roundNum s (e :: es))
        with (run roundNum (step roundNum s e) es).
      destruct (step_toasts roundNum s e) as [E|(t & Hc & Hk & E)].
      + destruct (IH (step roundNum s e)) as [Hok Hlen];
          [now rewrite E|].
        split; [exact Hok|]. rewrite E in Hlen.
        cbn [filter]. destruct (isClick e); simpl List.length; lia.
      + destruct (IH (step roundNum s e)) as [Hok Hlen].
        * rewrite E. apply Forall_app. split; [exact Hs|]. now constructor.
        * split; [exact Hok|]. rewrite E, length_app in Hlen.
          cbn [filter]. rewrite Hc. simpl List.length in *. lia. }
  destruct (H initial) as [Hok Hlen]; [constructor|].
  split; [exact Hok|exact Hlen].
Qed.

(** An instance of [toasts_come_from_clicks]: after a load, an edit, a
    commit and one save there is at most one toast. *)
Lemma at_most_one_toast_after_one_save :
  List.length
    (toasts
       (run Helper.roundNum initial
          [Wire Scenario.fetched; PriceInput "A" "80"; Elapse 500;
           SaveClick Scenario.twoReject]))
  <= 1.
Proof.
  apply (proj2 (toasts_come_from_clicks Helper.roundNum
                  [Wire Scenario.fetched; PriceInput "A" "80"; Elapse 500;
                   SaveClick Scenario.twoReject])).
Defined.

(* ----------------------------------------------------------------- *)
(** *** What a save leaves in place *)

(** X12: [saveChanges] never changes an item of the collection and
    never sets or clears a timer.  When no write rejects it leaves
    [errorMsg] as it was, an earlier error included; when all writes
    fulfil the collection becomes a new array of the same items, and
    otherwise it stays the very array it was. *)
Theorem saveChanges_keeps_the_items (api : writeApi) (s : state) :
  elems (cartItems (saveChanges api s)) = elems (cartItems s) /\
  timers (saveChanges api s) = timers s /\
  (existsb isRejection (settlements api s) = false ->
   errorMsg (saveChanges api s) = errorMsg s) /\
  (forallb isFulfilment (settlements api s) = true ->
   ref (cartItems (saveChanges api s)) = nextRef s) /\
  (forallb isFulfilment (settlements api s) = false ->
   cartItems (saveChanges api s) = cartItems s).
Proof.
  unfold settlements.
  set (outcomes := mapi api (map updateOf (elems (cartItems s)))).
  pose proof (PromiseAll_fulfilled outcomes) as Hall.
  destruct (saveChanges_frame api s) as (Ht & _).
  unfold saveChanges in *. fold outcomes in Ht |- *.
  split; [|split; [exact Ht|split; [|split]]].
  - destruct (PromiseAll outcomes); reflexivity.
  - intro Hrej. apply firstRejection_none in Hrej.
    unfold PromiseAll. rewrite Hrej.
    destruct (existsb isPending outcomes); reflexivity.
  - intro Hf. apply Hall in Hf. rewrite Hf. reflexivity.
  - intro Hf. destruct (PromiseAll outcomes); try reflexivity.
    assert (forallb isFulfilment outcomes = true) by now apply Hall.
    congruence.
Qed.

(** An instance of [saveChanges_keeps_the_items]: a save whose writes
    all fulfil, after an error was recorded by a failed fetch. *)
Lemma save_keeps_an_earlier_error :
  errorMsg
    (saveChanges Scenario.allFulfil
       (snd (wiredCart Helper.roundNum Scenario.failed Scenario.loaded)))
  = Some (ErrObject Scenario.failure).
Proof.
  apply (proj1 (proj2 (proj2
           (saveChanges_keeps_the_items Scenario.allFulfil
              (snd (wiredCart Helper.roundNum Scenario.failed
                      Scenario.loaded)))))).
  reflexivity.
Defined.

(* ----------------------------------------------------------------- *)
(** *** The margin of an item priced at its cost *)

Lemma finite_nonzero (p : float) :
  is_finite p = true -> PrimFloat.eqb p zero = false ->
  exists s m e, Prim2SF p = S754_finite s m e.
Proof.
  unfold is_finite, is_nan, is_infinity.
  rewrite !FloatAxioms.eqb_spec, FloatAxioms.abs_spec.
  change (Prim2SF zero) with (S754_zero false).
  change (Prim2SF infinity) with (S754_infinity false).
  destruct (Prim2SF p) as [s|s| |s m e]; cbn; try discriminate.
  - destruct s; discriminate.
  - intros _ _. now exists s, m, e.
Qed.

Lemma sub_self (p : float) :
  is_finite p = true -> PrimFloat.eqb p zero = false ->
  (p - p)%float = zero.
Proof.
  intros Hf Hz. destruct (finite_nonzero p Hf Hz) as (s & m & e & Hp).
  apply Prim2SF_inj. rewrite FloatAxioms.sub_spec, Hp.
  unfold SF64sub, SFsub. cbv zeta. rewrite Z.sub_diag. reflexivity.
Qed.

Lemma zero_div (p : float) :
  is_finite p = true -> PrimFloat.eqb p zero = false ->
  (zero / p)%float = zero \/ (zero / p)%float = neg_zero.
Proof.
  intros Hf Hz. destruct (finite_nonzero p Hf Hz) as (s & m & e & Hp).
  rewrite <- (SF2Prim_Prim2SF (zero / p)), FloatAxioms.div_spec, Hp.
  change (Prim2SF zero) with (S754_zero false).
  destruct s; cbn; auto.
Qed.

(** X13: an item priced at its cost has the margin zero: for every
    finite price other than zero, [calculateMargin (p, p)] is the
    rounding of a zero, whatever [roundNum] is, and with the rounding
    by scaling it is zero. *)
Theorem margin_at_cost_is_zero (p : float) :
  is_finite p = true ->
  PrimFloat.eqb p zero = false ->
  (forall roundNum : float -> Z -> float,
     calculateMargin roundNum (VNumber p) (VNumber p) = roundNum zero 2%Z \/
     calculateMargin roundNum (VNumber p) (VNumber p) = roundNum neg_zero 2%Z) /\
  PrimFloat.eqb (calculateMargin Helper.roundNum (VNumber p) (VNumber p)) zero
  = true.
Proof.
  intros Hf Hz.
  assert (H : forall roundNum : float -> Z -> float,
            calculateMargin roundNum (VNumber p) (VNumber p) = roundNum zero 2%Z \/
            calculateMargin roundNum (VNumber p) (VNumber p)
            = roundNum neg_zero 2%Z).
  { intro roundNum. unfold calculateMargin.
    cbn [typeof typeTag_eqb ToNumber negb orb].
    change (strictEquals (VNumber p) (VNumber zero)) with (PrimFloat.eqb p zero).
    rewrite Hz, (sub_self p Hf Hz).
    destruct (zero_div p Hf Hz) as [-> | ->]; [left|right]; reflexivity. }
  split; [exact H|].
  destruct (H Helper.roundNum) as [-> | ->]; vm_compute; reflexivity.
Qed.

(** An instance of [margin_at_cost_is_zero]: the price 50 at the cost
    50. *)
Lemma margin_of_50_at_cost_50 :
  PrimFloat.eqb (calculateMargin Helper.roundNum (VNumber 50) (VNumber 50)) zero
  = true.
Proof.
  apply (proj2 (margin_at_cost_is_zero 50%float eq_refl eq_refl)).
Defined.

(* ----------------------------------------------------------------- *)
(** *** Edits that are not numbers *)

Lemma nan_div_r (x : float) : (x / nan)%float = nan.
Proof.
  apply Prim2SF_inj. rewrite FloatAxioms.div_spec.
  change (Prim2SF nan) with S754_nan.
  destruct (Prim2SF x); reflexivity.
Qed.

Lemma calculateMargin_nan_price (roundNum : float -> Z -> float) (c : float) :
  calculateMargin roundNum (VNumber nan) (VNumber c) = roundNum nan 2%Z.
Proof.
  unfold calculateMargin. cbn [typeof typeTag_eqb ToNumber].
  change (strictEquals (VNumber nan) (VNumber zero)) with false.
  cbn [negb orb]. now rewrite nan_sub_l.
Qed.

(** X14: an edit whose value does not start with a number (an emptied
    input, say) is not refused: when it settles, a margin edit stores
    the margin [NaN] and the price [roundNum (NaN, 2)], and a price edit
    of an item with a numeric cost stores the price [NaN] and the
    margin [roundNum (NaN, 2)]. *)
Theorem edit_of_no_number_stores_NaN (roundNum : float -> Z -> float)
  (s : state) (id value : string) (item : cartItem) (dt : nat) :
  timers s = [] ->
  find (hasId id) (elems (cartItems s)) = Some item ->
  parseFloat value = nan ->
  quietPeriod <= dt ->
  find (hasId id)
    (elems (cartItems (run roundNum s [MarginInput id value; Elapse dt])))
  = Some {| Id := Id item;
            SalesPrice := VNumber (roundNum nan 2%Z);
            Product2 := Product2 item;
            margin := nan;
            readonly := readonly item |} /\
  (forall c : float,
     Product_Cost__c (Product2 item) = VNumber c ->
     find (hasId id)
       (elems (cartItems (run roundNum s [PriceInput id value; Elapse dt])))
     = Some {| Id := Id item;
               SalesPrice := VNumber nan;
               Product2 := Product2 item;
               margin := roundNum nan 2%Z;
               readonly := readonly item |}).
Proof.
  intros Ht Hfind Hnan Hdt. split.
  - change (MarginInput id value) with (input Margin id value).
    rewrite (lone_edit_settles roundNum Margin id value dt s Ht Hdt).
    destruct (atCommit_frame Margin id value dt s) as (Hi & _).
    rewrite timeoutBody_elems, Hi.
    rewrite (find_mutateFound id (setMargin roundNum value) _ item);
      [|reflexivity|assumption].
    unfold setMargin, priceFromMargin. rewrite Hnan.
    change (1 - nan / 100)%float with nan. now rewrite nan_div_r.
  - intros c Hc.
    change (PriceInput id value) with (input Price id value).
    rewrite (lone_edit_settles roundNum Price id value dt s Ht Hdt).
    destruct (atCommit_frame Price id value dt s) as (Hi & _).
    rewrite timeoutBody_elems, Hi.
    rewrite (find_mutateFound id (setPrice roundNum value) _ item);
      [|reflexivity|assumption].
    unfold setPrice. rewrite Hnan, Hc.
    now rewrite calculateMargin_nan_price.
Qed.

(** An instance of [edit_of_no_number_stores_NaN]: the price input of
    item A is emptied. *)
Lemma emptied_price_of_A :
  priceOf "A"
    (run Helper.roundNum Scenario.loaded [PriceInput "A" EmptyString; Elapse 500])
  = Some (VNumber nan) /\
  marginOf "A"
    (run Helper.roundNum Scenario.loaded [PriceInput "A" EmptyString; Elapse 500])
  = Some nan.
Proof.
  pose proof (proj2 (edit_of_no_number_stores_NaN Helper.roundNum
                       Scenario.loaded "A"%string EmptyString
                       {| Id := "A"; SalesPrice := VNumber 100;
                          Product2 := mkProduct2 (VNumber 50) (VBool true);
                          margin := 50; readonly := VBool true |} 500
                       eq_refl eq_refl eq_refl
                       ltac:(unfold quietPeriod; lia))
                50%float eq_refl) as Hfind.
  unfold priceOf, marginOf. rewrite Hfind. split; vm_compute; reflexivity.
Defined.
